(** * Verification of the zkLogin background core (src/src/popup/main.tsx,
      src/src/shared/storage.ts, src/src/shared/encoding.ts).

    Shallow embedding: BigInt values are [Z]; JavaScript strings are lists of
    UTF-16 code units ([list Z]) where their characters matter and
    [String.string] where they are opaque messages; the asynchronous code is
    written as explicit state passing over a small error/state monad. *)

From Stdlib Require Import ZArith List Lia String Ascii Bool DecimalString QArith Qround Permutation Sorted.
Set Warnings "-register-all".

Import ListNotations.
Open Scope Z_scope.

(* ------------------------------------------------------------------------- *)
(** ** Field reduction of the salt (main.tsx, normalizeToField) *)

Module Field.

(** [FIELD_MODULUS_BN254]. *)
Definition FIELD_MODULUS_BN254 : Z :=
  21888242871839275222246405745257275088548364400416034343698204186575808495617.

(** JavaScript's BigInt [%] truncates towards zero: [Z.rem]. *)
Definition normalizeToField (x : Z) : Z :=
  let n := Z.rem x FIELD_MODULUS_BN254 in
  if n =? 0 then 1 else n.

End Field.

(* ------------------------------------------------------------------------- *)
(** ** Base64 persistence format (shared/encoding.ts)

    [btoa] and [atob] are the platform's forgiving-base64 encode and decode
    (HTML standard, RFC 4648 section 4); they are written out here. A string is
    its list of UTF-16 code units; a thrown DOMException is [None]. *)

Module Encoding.

Definition b64_char (v : Z) : Z :=
  if v <? 26 then 65 + v
  else if v <? 52 then 97 + (v - 26)
  else if v <? 62 then 48 + (v - 52)
  else if v =? 62 then 43 else 47.

Definition b64_val (c : Z) : option Z :=
  if (65 <=? c) && (c <=? 90) then Some (c - 65)
  else if (97 <=? c) && (c <=? 122) then Some (c - 71)
  else if (48 <=? c) && (c <=? 57) then Some (c + 4)
  else if c =? 43 then Some 62
  else if c =? 47 then Some 63
  else None.

(** Encode: every three octets form a 24-bit group cut into four sextets;
    a final group of one or two octets is padded with [=] (code 61). *)
Fixpoint b64_encode (bs : list Z) : list Z :=
  match bs with
  | a :: b :: c :: rest =>
      let n := a * 2^16 + b * 2^8 + c in
      map b64_char [n / 2^18; (n / 2^12) mod 64; (n / 2^6) mod 64; n mod 64]
        ++ b64_encode rest
  | [a; b] =>
      let n := a * 2^16 + b * 2^8 in
      map b64_char [n / 2^18; (n / 2^12) mod 64; (n / 2^6) mod 64] ++ [61]
  | [a] =>
      let n := a * 2^16 in
      map b64_char [n / 2^18; (n / 2^12) mod 64] ++ [61; 61]
  | [] => []
  end.

(** [btoa]: throws InvalidCharacterError on a code unit above 255. *)
Definition btoa (s : list Z) : option (list Z) :=
  if forallb (fun c => (0 <=? c) && (c <=? 255)) s then Some (b64_encode s) else None.

Definition is_ascii_whitespace (c : Z) : bool :=
  (c =? 9) || (c =? 10) || (c =? 12) || (c =? 13) || (c =? 32).

(** Remove one or two trailing [=]. *)
Definition strip_padding (s : list Z) : list Z :=
  match rev s with
  | x :: r1 =>
      if x =? 61 then
        match r1 with
        | y :: r2 => if y =? 61 then rev r2 else rev r1
        | [] => rev r1
        end
      else s
  | [] => s
  end.

Fixpoint traverse_val (s : list Z) : option (list Z) :=
  match s with
  | [] => Some []
  | c :: s' =>
      match b64_val c, traverse_val s' with
      | Some v, Some vs => Some (v :: vs)
      | _, _ => None
      end
  end.

(** The sextet buffer: 24 bits give three octets; 18 bits drop two bits and
    give two octets; 12 bits drop four bits and give one octet. *)
Fixpoint decode_sextets (vs : list Z) : list Z :=
  match vs with
  | w :: x :: y :: z :: rest =>
      let n := w * 2^18 + x * 2^12 + y * 2^6 + z in
      [n / 2^16; (n / 2^8) mod 256; n mod 256] ++ decode_sextets rest
  | [w; x; y] =>
      let n := (w * 2^12 + x * 2^6 + y) / 4 in
      [n / 2^8; n mod 256]
  | [w; x] =>
      let n := (w * 2^6 + x) / 16 in
      [n]
  | _ => []
  end.

(** [atob]: forgiving-base64 decode. *)
Definition atob (s : list Z) : option (list Z) :=
  let s1 := filter (fun c => negb (is_ascii_whitespace c)) s in
  let s2 := if Nat.eqb (Nat.modulo (List.length s1) 4) 0 then strip_padding s1 else s1 in
  if Nat.eqb (Nat.modulo (List.length s2) 4) 1 then None
  else match traverse_val s2 with
       | Some vs => Some (decode_sextets vs)
       | None => None
       end.

(** [String.fromCharCode] keeps the low 16 bits of its argument. *)
Definition fromCharCode (n : Z) : Z := n mod 2^16.

(** [uint8ToBase64]: one character per byte, then [btoa]. *)
Definition uint8ToBase64 (bytes : list Z) : option (list Z) :=
  btoa (map fromCharCode bytes).

(** [base64ToUint8]: [atob], then [bytes[i] = binary.charCodeAt(i)], stored
    into a Uint8Array (modulo 256). *)
Definition base64ToUint8 (base64 : list Z) : option (list Z) :=
  match atob base64 with
  | Some binary => Some (map (fun c => c mod 256) binary)
  | None => None
  end.

Definition is_byte (x : Z) : Prop := 0 <= x < 256.

(** The sextets and the padding [b64_encode] emits, separated (used in the
    proofs only). *)
Fixpoint b64_sextets (bs : list Z) : list Z :=
  match bs with
  | a :: b :: c :: rest =>
      let n := a * 2^16 + b * 2^8 + c in
      [n / 2^18; (n / 2^12) mod 64; (n / 2^6) mod 64; n mod 64] ++ b64_sextets rest
  | [a; b] =>
      let n := a * 2^16 + b * 2^8 in
      [n / 2^18; (n / 2^12) mod 64; (n / 2^6) mod 64]
  | [a] =>
      let n := a * 2^16 in
      [n / 2^18; (n / 2^12) mod 64]
  | [] => []
  end.

Fixpoint b64_pad (bs : list Z) : list Z :=
  match bs with
  | _ :: _ :: _ :: rest => b64_pad rest
  | [_; _] => [61]
  | [_] => [61; 61]
  | [] => []
  end.

(** Properties of one alphabet character, checked on all 64 sextets. *)
Definition char_good (v : Z) : bool :=
  match b64_val (b64_char v) with
  | Some v' => (v' =? v) && negb (b64_char v =? 61) && negb (is_ascii_whitespace (b64_char v))
  | None => false
  end.

End Encoding.

(* ------------------------------------------------------------------------- *)
(** ** JavaScript numbers (IEEE binary64) *)

Module Num.

(** A JavaScript number: [JFinite q] is the finite double of value [q]
    (the two zeros are not told apart). *)
Inductive JsNumber := JFinite (q : Q) | JNaN | JPosInf | JNegInf.

(** The decimal digits of an integer, with a leading [-] when negative. *)
Definition decimal (z : Z) : string :=
  DecimalString.NilZero.string_of_int (Z.to_int z).

(** Number of decimal digits of a positive integer. *)
Definition ndigits (z : Z) : Z := Z.of_nat (String.length (decimal z)).

(** [b^k <= n / d], for [0 < n] and [0 < d]. *)
Definition pow_le (b k n d : Z) : bool :=
  if 0 <=? k then d * b ^ k <=? n else d <=? n * b ^ (- k).

(** [floor (log2 (n / d))] and [floor (log10 (n / d))], for [0 < n], [0 < d]. *)
Definition log2_ratio (n d : Z) : Z :=
  let k := Z.log2 n - Z.log2 d in if pow_le 2 k n d then k else k - 1.

Definition log10_ratio (n d : Z) : Z :=
  let k := ndigits n - ndigits d in if pow_le 10 k n d then k else k - 1.

(** [n / d] rounded to an integer, ties to even. *)
Definition round_half_even (n d : Z) : Z :=
  let m := n / d in
  let r := n mod d in
  if d <? 2 * r then m + 1
  else if 2 * r =? d then (if Z.odd m then m + 1 else m)
  else m.

(** The positive [n / d] rounded to binary64 as a significand [m] and an
    exponent [u] (value [m * 2^u]): 53 significant bits, and the exponent
    never below [-1074] (subnormals). *)
Definition round_pos (n d : Z) : Z * Z :=
  let u := Z.max (log2_ratio n d - 52) (-1074) in
  let m := if 0 <=? u then round_half_even n (d * 2 ^ u)
           else round_half_even (n * 2 ^ (- u)) d in
  (m, u).

Definition scaled (b m u : Z) : Q :=
  if 0 <=? u then inject_Z (m * b ^ u) else Qmake m (Z.to_pos (b ^ (- u))).

(** The Number value of the real [q]: rounded to nearest, ties to even,
    and [Infinity] (with the sign of [q]) from [2^1024] on. *)
Definition round_Q (q : Q) : JsNumber :=
  let n := Z.abs (Qnum q) in
  let d := Zpos (Qden q) in
  if n =? 0 then JFinite 0 else
  let '(m, u) := round_pos n d in
  let neg := Qnum q <? 0 in
  if (0 <=? u) && (2 ^ 1024 <=? m * 2 ^ u) then (if neg then JNegInf else JPosInf)
  else JFinite (if neg then Qopp (scaled 2 m u) else scaled 2 m u).

(** [round_Q v] is the double [x]. *)
Definition rounds_to (v x : Q) : bool :=
  match round_Q v with JFinite y => Qeq_bool y x | _ => false end.

Definition inf_of (neg : bool) : JsNumber := if neg then JNegInf else JPosInf.

(** The operator [*]. *)
Definition js_mul (a b : JsNumber) : JsNumber :=
  match a, b with
  | JNaN, _ | _, JNaN => JNaN
  | JFinite x, JFinite y => round_Q (x * y)
  | JFinite x, JPosInf | JPosInf, JFinite x =>
      if Qeq_bool x 0 then JNaN else inf_of (negb (Qle_bool 0 x))
  | JFinite x, JNegInf | JNegInf, JFinite x =>
      if Qeq_bool x 0 then JNaN else inf_of (Qle_bool 0 x)
  | JPosInf, JPosInf | JNegInf, JNegInf => JPosInf
  | JPosInf, JNegInf | JNegInf, JPosInf => JNegInf
  end.

(** [Math.floor]. *)
Definition js_floor (a : JsNumber) : JsNumber :=
  match a with JFinite q => JFinite (inject_Z (Qfloor q)) | x => x end.

(** *** [Number.prototype.toString()] (radix 10) *)

(** The digits [s] and exponent [e] ([s * 10^e]) of the shortest decimal
    that reads back as the positive double [x = n / d]: for k = 1, 2, ...
    digits, the two k-digit neighbours of [x]; of those that round to [x],
    the closer one, the even one on a tie. *)
Fixpoint shortest_from (n d E k : Z) (fuel : nat) : Z * Z :=
  match fuel with
  | O => (n / d, 0)
  | S f =>
      let e := E + 1 - k in
      let tn := if 0 <=? e then n else n * 10 ^ (- e) in
      let td := if 0 <=? e then d * 10 ^ e else d in
      let lo := tn / td in
      let hi := lo + 1 in
      let ok_lo := rounds_to (scaled 10 lo e) (Qmake n (Z.to_pos d)) in
      let ok_hi := rounds_to (scaled 10 hi e) (Qmake n (Z.to_pos d)) in
      if ok_lo && ok_hi then
        match Z.compare (2 * tn) ((2 * lo + 1) * td) with
        | Lt => (lo, e)
        | Gt => (hi, e)
        | Eq => if Z.even lo then (lo, e) else (hi, e)
        end
      else if ok_lo then (lo, e)
      else if ok_hi then (hi, e)
      else shortest_from n d E (k + 1) f
  end.

Definition shortest (n d : Z) : Z * Z := shortest_from n d (log10_ratio n d) 1 20.

(** Drop the trailing zeros of [s], raising the exponent. *)
Fixpoint strip_zeros (s e : Z) (fuel : nat) : Z * Z :=
  match fuel with
  | O => (s, e)
  | S f => if (s mod 10 =? 0) && negb (s =? 0) then strip_zeros (s / 10) (e + 1) f else (s, e)
  end.

Fixpoint zeros (k : nat) : string :=
  match k with O => ""%string | S k' => String "0"%char (zeros k') end.

(** The steps of Number::toString for the digits [s] (k of them) and the
    decimal point position [n]. *)
Definition format_digits (s n : Z) : string :=
  let ds := decimal s in
  let k := ndigits s in
  if (k <=? n) && (n <=? 21) then (ds ++ zeros (Z.to_nat (n - k)))%string
  else if (0 <? n) && (n <=? 21) then
    (substring 0 (Z.to_nat n) ds ++ "." ++ substring (Z.to_nat n) (Z.to_nat (k - n)) ds)%string
  else if (-6 <? n) && (n <=? 0) then ("0." ++ zeros (Z.to_nat (- n)) ++ ds)%string
  else
    let sign := if n - 1 <? 0 then "-"%string else "+"%string in
    let exp := ("e" ++ sign ++ decimal (Z.abs (n - 1)))%string in
    if k =? 1 then (ds ++ exp)%string
    else (substring 0 1 ds ++ "." ++ substring 1 (Z.to_nat (k - 1)) ds ++ exp)%string.

(** [String(x)] for the finite double [x]. *)
Definition number_to_string (x : Q) : string :=
  let n := Z.abs (Qnum x) in
  let d := Zpos (Qden x) in
  if n =? 0 then "0"%string else
  let '(s0, e0) := shortest n d in
  let '(s, e) := strip_zeros s0 e0 (Z.to_nat (ndigits s0)) in
  let sign := if Qnum x <? 0 then "-"%string else ""%string in
  (sign ++ format_digits s (e + ndigits s))%string.

(** [BigInt(x)]: the RangeError's message when [x] is not an integer. *)
Definition bigint_error (shown : string) : string :=
  ("The number " ++ shown ++ " cannot be converted to a BigInt because it is not an integer")%string.

Definition to_bigint (x : JsNumber) : string + Z :=
  match x with
  | JFinite q =>
      if Qeq_bool q (inject_Z (Qfloor q)) then inr (Qfloor q)
      else inl (bigint_error (number_to_string q))
  | JNaN => inl (bigint_error "NaN"%string)
  | JPosInf => inl (bigint_error "Infinity"%string)
  | JNegInf => inl (bigint_error "-Infinity"%string)
  end.

End Num.

(* ------------------------------------------------------------------------- *)
(** ** JSON values as [response.json()] returns them *)

Module Json.

(** [JNum q] is a number: [q] is the value of the finite double
    [JSON.parse] read (the literal rounded by [Num.round_Q]); [JSON.parse]
    yields no bigint, no [NaN] and no infinity. *)
Inductive Json : Type :=
| JNull
| JBool (b : bool)
| JNum (q : Q)
| JStr (s : string)
| JArr (items : list Json)
| JObj (fields : list (string * Json)).

Fixpoint assoc (k : string) (kvs : list (string * Json)) : option Json :=
  match kvs with
  | [] => None
  | (k', v) :: rest => if String.eqb k k' then Some v else assoc k rest
  end.

(** Property access [o.k]; [None] is [undefined]. *)
Definition get (o : Json) (k : string) : option Json :=
  match o with
  | JObj kvs => assoc k kvs
  | _ => None
  end.

(** JavaScript truthiness of a property value. *)
Definition truthy (v : option Json) : bool :=
  match v with
  | None | Some JNull => false
  | Some (JBool b) => b
  | Some (JNum q) => negb (Qeq_bool q 0)
  | Some (JStr s) => negb (String.eqb s "")
  | Some (JArr _) | Some (JObj _) => true
  end.

(** [typeof v === 'object'] ([null] included). *)
Definition is_object (v : option Json) : bool :=
  match v with
  | Some JNull | Some (JArr _) | Some (JObj _) => true
  | _ => false
  end.

(** [Object.keys]. *)
Definition object_keys (o : Json) : list string :=
  match o with
  | JObj kvs => map fst kvs
  | JArr items => map (fun i => Num.decimal (Z.of_nat i)) (seq 0 (List.length items))
  | JStr s => map (fun i => Num.decimal (Z.of_nat i)) (seq 0 (String.length s))
  | _ => []
  end.

(** [Array.prototype.join(', ')]. *)
Fixpoint join (sep : string) (l : list string) : string :=
  match l with
  | [] => ""
  | [x] => x
  | x :: rest => x ++ sep ++ join sep rest
  end.

End Json.

(* ------------------------------------------------------------------------- *)
(** ** Shared types (shared/types.ts) *)

Module Types.
Import Json.

Inductive OAuthProvider := twitch.

(** The proof blob stored in a session; [addressSeed] may be absent
    (consumers write [session.proof.addressSeed ?? genAddressSeed(...)]). *)
Record StoredZkLoginProof := {
  proofPoints : Json;
  issBase64Details : Json;
  headerBase64 : Json;
  addressSeed : option string;
}.

Record AccountSession := {
  address : string;
  provider : OAuthProvider;
  sub : string;
  aud : string;
  maxEpoch : Z;
  createdAt : Z;
  salt : string;
  randomness : string;
  jwt : string;
  proof : StoredZkLoginProof;
  ephemeralPrivateKey : string;
}.

(** [AccountPublicData]; its field names carry a [pub_] prefix because Rocq
    record fields share one name space. *)
Record AccountPublicData := {
  pub_address : string;
  pub_provider : OAuthProvider;
  pub_sub : string;
  pub_aud : string;
  pub_maxEpoch : Z;
  pub_createdAt : Z;
}.

End Types.

(* ------------------------------------------------------------------------- *)
(** ** Session store (shared/storage.ts, main.tsx) *)

Module Store.
Import Types.

(** [sessionToPublicData] (main.tsx). *)
Definition sessionToPublicData (session : AccountSession) : AccountPublicData :=
  {| pub_address := address session; pub_provider := provider session;
     pub_sub := sub session; pub_aud := aud session;
     pub_createdAt := createdAt session; pub_maxEpoch := maxEpoch session |}.

(** [sessionsToPublicData] (storage.ts): the same destructuring, mapped. *)
Definition sessionsToPublicData (sessions : list AccountSession) : list AccountPublicData :=
  map (fun s =>
         {| pub_address := address s; pub_provider := provider s;
            pub_sub := sub s; pub_aud := aud s;
            pub_createdAt := createdAt s; pub_maxEpoch := maxEpoch s |}) sessions.

(** [sessions.filter(existing => existing.address !== addr)]. *)
Definition without_address (addr : string) (sessions : list AccountSession) :
  list AccountSession :=
  filter (fun existing => negb (String.eqb (address existing) addr)) sessions.

(** The store update at the end of a successful [startTwitchLogin]. *)
Definition login_update (sessions : list AccountSession) (session : AccountSession) :
  list AccountSession :=
  session :: without_address (address session) sessions.

(** [logoutAccount]'s store update. *)
Definition logout_update (sessions : list AccountSession) (addr : string) :
  list AccountSession :=
  without_address addr sessions.

(** What the login pipeline produced before the store update: an error
    thrown somewhere in the pipeline, or the freshly built session. *)
Inductive LoginOutcome :=
| LoginFailed (message : string)
| LoginBuilt (session : AccountSession).

(** The store transitions: a login (failed pipelines leave the store as it
    is, since [setAccountSessions] is never reached) and a logout. *)
Inductive store_step : list AccountSession -> list AccountSession -> Prop :=
| step_login st o :
    store_step st (match o with
                   | LoginFailed _ => st
                   | LoginBuilt s => login_update st s
                   end)
| step_logout st a : store_step st (logout_update st a).

(** States reachable from the empty session region. *)
Inductive reachable : list AccountSession -> Prop :=
| reach_init : reachable []
| reach_step st st' : reachable st -> store_step st st' -> reachable st'.

End Store.

(* ------------------------------------------------------------------------- *)
(** ** Proof requestor (main.tsx, fetchZkProof) *)

Module Prover.
Import Json Types.
Local Open Scope string_scope.

(** The reply of [fetch(url, {method: 'POST', ...})]: [response.ok],
    [response.status], [response.text()] and [response.json()]. The request
    itself (headers, body) does not enter the claims and is not modelled. *)
Record HttpResponse := {
  http_ok : bool;
  http_status : Z;
  http_text : string;
  http_json : Json;
}.

(** [/^https?:/i.test(url)]. *)
Definition lower_ascii (c : Ascii.ascii) : Ascii.ascii :=
  let n := Ascii.nat_of_ascii c in
  if (65 <=? n)%nat && (n <=? 90)%nat then Ascii.ascii_of_nat (n + 32) else c.

Fixpoint lower (s : string) : string :=
  match s with
  | EmptyString => EmptyString
  | String c s' => String (lower_ascii c) (lower s')
  end.

Definition is_http_url (url : string) : bool :=
  String.prefix "http:" (lower url) || String.prefix "https:" (lower url).

(** The response handling of [fetchZkProof], from [response.ok] on. *)
Definition fetchZkProof (url : string) (response : HttpResponse) :
  string + StoredZkLoginProof :=
  if negb (is_http_url url) then inl "zkProverUrl must be an absolute HTTP(S) URL."
  else if negb (http_ok response) then
    inl ("ZK prover error (HTTP " ++ Num.decimal (http_status response) ++ "): "
         ++ http_text response)
  else
    let raw := http_json response in
    if negb (truthy (Some raw)) || negb (is_object (Some raw)) then
      inl "Invalid proof response: expected object."
    else
      let container := raw in
      let top := container in
      let nested :=
        if is_object (get container "data") && truthy (get container "data")
        then get container "data" else None in
      let has_fields o :=
        truthy (get o "proofPoints") && truthy (get o "issBase64Details")
        && truthy (get o "headerBase64") in
      let src :=
        if has_fields top then Some top
        else match nested with
             | Some n => if has_fields n then Some n else None
             | None => None
             end in
      match src with
      | None =>
          inl ("Invalid proof response: missing fields. Keys present: "
               ++ join ", " (object_keys container))
      | Some src =>
          let addressSeed :=
            match get src "addressSeed" with
            | Some (JStr s) => Some s
            | Some (JNum q) => Some (Num.number_to_string q)
            | _ => None
            end in
          if negb (truthy (option_map JStr addressSeed)) then
            inl ("Invalid proof response: missing addressSeed. Keys present: "
                 ++ join ", " (object_keys src))
          else
            inr {| proofPoints := match get src "proofPoints" with Some v => v | None => JNull end;
                   issBase64Details :=
                     match get src "issBase64Details" with Some v => v | None => JNull end;
                   headerBase64 := match get src "headerBase64" with Some v => v | None => JNull end;
                   addressSeed := addressSeed |}
      end.

End Prover.

(* ------------------------------------------------------------------------- *)
(** ** Transactions (main.tsx, buildTransaction and toMist) *)

Module Tx.
Import Num.
Local Open Scope string_scope.

Inductive TxKind := transfer_sui | custom.

(** [SerializedTransactionRequest]; [amount] is [Some x] when
    [typeof payload.amount === 'number'] and [None] otherwise. *)
Record SerializedTransactionRequest := {
  kind : TxKind;
  amount : option JsNumber;
  recipient : option string;
  bytes : option string;
}.

Record ObjectRef := { objectId : string; objDigest : string; objVersion : string }.

Inductive Argument := GasCoin | NestedResult (cmd idx : nat) | PureAddress (a : string).

Inductive Command :=
| SplitCoins (coin : Argument) (amounts : list Z)
| TransferObjects (objects : list Argument) (to : Argument).

(** A transaction built with the builder API, or deserialised by
    [Transaction.from]; plus the gas payment set by [setGasPayment]. *)
Inductive TxBody :=
| Built (sender : string) (commands : list Command)
| FromBytes (serialized : string).

Record Transaction := { tx_body : TxBody; tx_gasPayment : list ObjectRef }.

(** [toMist]: [BigInt(Math.floor(amount * 1_000_000_000))], with the
    product rounded to a double and [BigInt]'s RangeError when the floor
    is not finite. *)
Definition toMist (amount : JsNumber) : string + Z :=
  to_bigint (js_floor (js_mul amount (JFinite 1000000000))).

(** *** The checks of the [@mysten/sui] builder that [buildTransaction]
    reaches *)

(** [tx.pure.u64(v)] inside [splitCoins]: the BCS [u64] range check. *)
Definition U64_MAX : Z := 2 ^ 64 - 1.

Definition pure_u64 (v : Z) : string + Z :=
  if (v <? 0)%Z || (U64_MAX <? v)%Z then
    inl ("Invalid u64 value: " ++ decimal v ++ ". Expected value in range 0-" ++ decimal U64_MAX)
  else inr v.

(** [String.prototype.toLowerCase] on the ASCII letters. *)
Definition ascii_lower (c : ascii) : ascii :=
  let n := nat_of_ascii c in
  if Nat.leb 65 n && Nat.leb n 90 then ascii_of_nat (n + 32) else c.

Fixpoint lower (s : string) : string :=
  match s with EmptyString => EmptyString | String c s' => String (ascii_lower c) (lower s') end.

Definition is_hex_char (c : ascii) : bool :=
  let n := nat_of_ascii c in
  (Nat.leb 48 n && Nat.leb n 57) || (Nat.leb 97 n && Nat.leb n 102) || (Nat.leb 65 n && Nat.leb n 70).

Fixpoint all_hex (s : string) : bool :=
  match s with EmptyString => true | String c s' => is_hex_char c && all_hex s' end.

Fixpoint pad_zeros (k : nat) (s : string) : string :=
  match k with O => s | S k' => String "0" (pad_zeros k' s) end.

(** [padStart(64, '0')]. *)
Definition pad_start_64 (s : string) : string := pad_zeros (64 - String.length s) s.

Definition has_0x (s : string) : bool := String.prefix "0x" s || String.prefix "0X" s.

Definition drop2 (s : string) : string := substring 2 (String.length s - 2) s.

(** [normalizeSuiAddress(value)]. *)
Definition normalizeSuiAddress (value : string) : string :=
  let address := lower value in
  let address := if String.prefix "0x" address then drop2 address else address in
  "0x" ++ pad_start_64 address.

(** [isHex]: [/^(0x|0X)?[a-fA-F0-9]+$/] and an even length. *)
Definition isHex (value : string) : bool :=
  let body := if has_0x value then drop2 value else value in
  negb (String.eqb body "") && all_hex body && Nat.even (String.length value).

Definition getHexByteLength (value : string) : nat :=
  if has_0x value then Nat.div (String.length value - 2) 2 else Nat.div (String.length value) 2.

(** [isValidSuiAddress]: 32 bytes of hex. *)
Definition isValidSuiAddress (value : string) : bool :=
  isHex value && Nat.eqb (getHexByteLength value) 32.

(** [tx.pure.address(value)]: the BCS [Address] check. *)
Definition pure_address (value : string) : string + Argument :=
  if String.eqb value "" || negb (isValidSuiAddress (normalizeSuiAddress value)) then
    inl ("Invalid Sui address " ++ value)
  else inr (PureAddress value).

Definition nonempty (s : option string) : bool :=
  match s with Some s => negb (String.eqb s "") | None => false end.

Definition REQUIRES_MSG : string := "Transfer SUI requires a recipient and numeric amount.".

(** [buildTransaction]. [from_error b] is the error [Transaction.from(b)]
    throws on the serialised transaction [b], if any. *)
Definition buildTransaction (from_error : string -> option string) (sender : string)
  (payload : SerializedTransactionRequest) : string + Transaction :=
  match kind payload with
  | transfer_sui =>
      match amount payload with
      | Some x =>
          if negb (nonempty (recipient payload)) then inl REQUIRES_MSG
          else
            match to_bigint (js_floor (js_mul x (JFinite 1000000000))) with
            | inl e => inl e
            | inr amt =>
                if (amt <=? 0)%Z then inl "Transfer amount must be greater than zero."
                else
                  let r := match recipient payload with Some r => r | None => "" end in
                  match pure_u64 amt with
                  | inl e => inl e
                  | inr amt' =>
                      match pure_address r with
                      | inl e => inl e
                      | inr to =>
                          inr {| tx_body := Built sender [SplitCoins GasCoin [amt'];
                                                          TransferObjects [NestedResult 0 0] to];
                                 tx_gasPayment := [] |}
                      end
                  end
            end
      | None => inl REQUIRES_MSG
      end
  | custom =>
      match bytes payload with
      | Some b =>
          if String.eqb b "" then inl "Custom transaction requires bytes."
          else match from_error b with
               | Some e => inl e
               | None => inr {| tx_body := FromBytes b; tx_gasPayment := [] |}
               end
      | None => inl "Custom transaction requires bytes."
      end
  end.

(** A transfer request. *)
Definition transfer_req (x : option JsNumber) (r b : option string) : SerializedTransactionRequest :=
  {| kind := transfer_sui; amount := x; recipient := r; bytes := b |}.

End Tx.

(* ------------------------------------------------------------------------- *)
(** ** The background worker: gas provisioning and signing (main.tsx)

    The chain, the faucet and the signer are the environment [Env]; the
    worker's effects are threaded through a reader/state/error monad [M]
    whose state holds the session region, the number of coin reads made so
    far and a trace of the external calls. *)

Module Background.
Import Types Tx Store.

(** A coin of [suiClient.getCoins]; [coin_balance] is [BigInt(coin.balance)],
    [None] when that throws. *)
Record CoinStruct := {
  coinObjectId : string;
  coin_digest : string;
  coin_version : string;
  coin_balance : option Z;
}.

Record SpendableCoinState := { coins : list CoinStruct; totalBalance : Z }.

Record Env := {
  (** [BigInt(balanceResult.totalBalance ?? '0')] at the k-th coin read,
      [None] when it throws. *)
  env_balance : nat -> option Z;
  (** [coinsPage.data] at the k-th coin read. *)
  env_coins : nat -> list CoinStruct;
  (** Whether [requestSuiFromFaucetV2] resolves. *)
  env_faucet_ok : bool;
  (** Whether [Ed25519Keypair.fromSecretKey(base64ToUint8(key))] succeeds. *)
  env_key_ok : string -> bool;
  (** [tx.sign], [getZkLoginSignature] and [executeTransactionBlock]: the
      digest, or the error thrown. *)
  env_submit : AccountSession -> Transaction -> string + string;
  (** The error [Transaction.from(bytes)] throws, if any. *)
  env_tx_from : string -> option string;
}.

Inductive Event :=
| EvCollect (addr : string)
| EvFaucet (addr : string)
| EvSleep (ms : Z)
| EvSubmit (addr : string)
| EvSetSessions.

Record World := {
  w_sessions : list AccountSession;
  w_reads : nat;
  w_trace : list Event;
}.

Definition M (A : Type) : Type := Env -> World -> (string + A) * World.

Definition ret {A} (a : A) : M A := fun _ w => (inr a, w).

Definition bind {A B} (m : M A) (k : A -> M B) : M B :=
  fun env w =>
    match m env w with
    | (inl e, w') => (inl e, w')
    | (inr a, w') => k a env w'
    end.

Notation "x <- m ;; k" := (bind m (fun x => k)) (at level 61, m at next level, right associativity).

(** [throw new Error(message)]; [formatError] later reads [error.message]. *)
Definition throw {A} (message : string) : M A := fun _ w => (inl message, w).

(** [try { m } catch (error) { h(formatError(error)) }]. *)
Definition catch {A} (m : M A) (h : string -> M A) : M A :=
  fun env w =>
    match m env w with
    | (inl e, w') => h e env w'
    | (inr a, w') => (inr a, w')
    end.

Definition emit (ev : Event) (w : World) : World :=
  {| w_sessions := w_sessions w; w_reads := w_reads w; w_trace := w_trace w ++ [ev] |}.

Definition getAccountSessions : M (list AccountSession) := fun _ w => (inr (w_sessions w), w).

Definition setAccountSessions (sessions : list AccountSession) : M unit :=
  fun _ w => (inr tt, {| w_sessions := sessions; w_reads := w_reads w;
                         w_trace := w_trace w ++ [EvSetSessions] |}).

Definition sleep (ms : Z) : M unit := fun _ w => (inr tt, emit (EvSleep ms) w).

Definition requestSuiFromFaucetV2 (recipient : string) : M unit :=
  fun env w =>
    (if env_faucet_ok env then inr tt else inl "faucet request failed"%string, emit (EvFaucet recipient) w).

Definition GAS_BUFFER_MIST : Z := 50000000.
Definition IS_TESTNET : bool := true.
Definition FAUCET_RETRY_DELAYS_MS : list Z := [700; 1500; 2500; 4000; 6000].

Definition coin_bal (c : CoinStruct) : Z :=
  match coin_balance c with Some b => b | None => 0 end.

(** [coins.filter(coin => BigInt(coin.balance) > 0n)] (a throw counts as
    [false]). *)
Definition positive_coins (cs : list CoinStruct) : list CoinStruct :=
  filter (fun c => match coin_balance c with Some b => 0 <? b | None => false end) cs.

(** [Array.prototype.sort] is stable; with the comparator "larger balance
    first" its result is the stable descending sort, written here as an
    insertion sort. *)
Fixpoint insert_desc (c : CoinStruct) (l : list CoinStruct) : list CoinStruct :=
  match l with
  | [] => [c]
  | y :: l' => if coin_bal y <? coin_bal c then c :: l else y :: insert_desc c l'
  end.

Definition sort_desc (cs : list CoinStruct) : list CoinStruct :=
  fold_left (fun acc c => insert_desc c acc) cs [].

Definition sum_balances (cs : list CoinStruct) : Z :=
  fold_left (fun acc c => acc + coin_bal c) cs 0.

Definition collectSpendableCoins (addr : string) : M SpendableCoinState :=
  fun env w =>
    let k := w_reads w in
    let cs := sort_desc (positive_coins (env_coins env k)) in
    let total := match env_balance env k with Some t => t | None => sum_balances cs end in
    (inr {| coins := cs; totalBalance := total |},
     {| w_sessions := w_sessions w; w_reads := S k; w_trace := w_trace w ++ [EvCollect addr] |}).

Definition coinsToObjectRefs (cs : list CoinStruct) : list ObjectRef :=
  map (fun c => {| objectId := coinObjectId c; objDigest := coin_digest c;
                   objVersion := coin_version c |}) (firstn 32 cs).

Fixpoint poll_faucet (addr : string) (delays : list Z) : M unit :=
  match delays with
  | [] => ret tt
  | delayMs :: rest =>
      _ <- sleep delayMs ;;
      state <- collectSpendableCoins addr ;;
      if (0 <? List.length (coins state))%nat then ret tt else poll_faucet addr rest
  end.

Definition FAUCET_FAILED_MSG : string :=
  "테스트넷 faucet 요청이 실패했습니다. 잠시 후 다시 시도하거나 수동으로 가스를 충전하세요."%string.

Definition requestFaucetAndWait (addr : string) : M unit :=
  _ <- catch (requestSuiFromFaucetV2 addr) (fun _ => throw FAUCET_FAILED_MSG) ;;
  poll_faucet addr FAUCET_RETRY_DELAYS_MS.

(** [toMist(payload.amount)] for a transfer with a numeric amount, [0n]
    otherwise; [toMist]'s RangeError propagates. *)
Definition transferAmountMist (payload : SerializedTransactionRequest) : string + Z :=
  match kind payload, amount payload with
  | transfer_sui, Some x => toMist x
  | _, _ => inr 0
  end.

Definition minimumRequired (t : Z) : Z :=
  (if 0 <? t then t else 0) + GAS_BUFFER_MIST.

Definition sufficient (min : Z) (state : SpendableCoinState) : bool :=
  (min <=? totalBalance state) && (0 <? List.length (coins state))%nat.

Definition MAINNET_TRANSFER_MSG : string := "보내려는 SUI 양이 계정 잔액보다 많습니다."%string.
Definition MAINNET_FEE_MSG : string := "SUI 잔액이 부족하여 거래 수수료를 낼 수 없습니다."%string.
Definition TRANSFER_SHORT_MSG : string :=
  "보내려는 SUI 양이 아직 부족합니다. 지갑에 SUI를 더 충전한 뒤 다시 시도하세요."%string.
Definition FEE_SHORT_MSG : string :=
  "테스트넷 faucet에서 아직 SUI가 도착하지 않았습니다. 잠시 기다린 뒤 다시 시도해주세요."%string.

Definition lift {A} (r : string + A) : M A :=
  match r with inl e => throw e | inr a => ret a end.

Definition ensureSuiForTransaction (session : AccountSession)
  (payload : SerializedTransactionRequest) : M (list ObjectRef) :=
  t <- lift (transferAmountMist payload) ;;
  let min := minimumRequired t in
  state <- collectSpendableCoins (address session) ;;
  if sufficient min state then ret (coinsToObjectRefs (coins state))
  else if negb IS_TESTNET then
    throw (if (0 <? t) && (totalBalance state <? t) then MAINNET_TRANSFER_MSG else MAINNET_FEE_MSG)
  else
    _ <- requestFaucetAndWait (address session) ;;
    state' <- collectSpendableCoins (address session) ;;
    if sufficient min state' then ret (coinsToObjectRefs (coins state'))
    else throw (if (0 <? t) && (totalBalance state' <? t)
                then TRANSFER_SHORT_MSG else FEE_SHORT_MSG).

Definition executeTransactionWithSession (session : AccountSession)
  (payload : SerializedTransactionRequest) : M string :=
  fun env w =>
    (if env_key_ok env (ephemeralPrivateKey session) then
       (gasPayment <- ensureSuiForTransaction session payload ;;
        tx <- lift (buildTransaction (env_tx_from env) (address session) payload) ;;
        let tx' := if (0 <? List.length gasPayment)%nat
                   then {| tx_body := tx_body tx; tx_gasPayment := gasPayment |} else tx in
        fun env w => (env_submit env session tx', emit (EvSubmit (address session)) w))
     else throw "invalid secret key"%string) env w.

Definition NO_SESSION_MSG : string :=
  "No active session for this address. Ask the user to log in again."%string.

Definition find_session (addr : string) (sessions : list AccountSession) : option AccountSession :=
  find (fun item => String.eqb (address item) addr) sessions.

Definition getSessionOrThrow (addr : string) : M AccountSession :=
  sessions <- getAccountSessions ;;
  match find_session addr sessions with
  | Some session => ret session
  | None => throw NO_SESSION_MSG
  end.

Inductive ResponseData :=
| DigestData (digest : string)
| AccountData (account : AccountPublicData)
| AccountsData (accounts : list AccountPublicData).

Record MessageResponse := {
  resp_type : string;
  resp_ok : bool;
  resp_data : option ResponseData;
  resp_error : option string;
}.

Definition signAndExecute (addr : string) (payload : SerializedTransactionRequest) :
  M MessageResponse :=
  catch
    (session <- getSessionOrThrow addr ;;
     txResult <- executeTransactionWithSession session payload ;;
     ret {| resp_type := "SIGN_AND_EXECUTE"%string; resp_ok := true;
            resp_data := Some (DigestData txResult); resp_error := None |})
    (fun error => ret {| resp_type := "SIGN_AND_EXECUTE"%string; resp_ok := false;
                         resp_data := None; resp_error := Some error |}).

Definition logoutAccount (addr : string) : M MessageResponse :=
  sessions <- getAccountSessions ;;
  let nextSessions := logout_update sessions addr in
  _ <- setAccountSessions nextSessions ;;
  ret {| resp_type := "LOGOUT_ACCOUNT"%string; resp_ok := true;
         resp_data := Some (AccountsData (sessionsToPublicData nextSessions));
         resp_error := None |}.

End Background.

(* ------------------------------------------------------------------------- *)
(** ** Reference notions used in the statements *)

Module Ref.
Import Types Background.
Local Open Scope string_scope.

(** Two sessions agree on the six public fields. *)
Definition public_agree (s1 s2 : AccountSession) : Prop :=
  address s1 = address s2 /\ provider s1 = provider s2 /\ sub s1 = sub s2 /\
  aud s1 = aud s2 /\ createdAt s1 = createdAt s2 /\ maxEpoch s1 = maxEpoch s2.

(** What [collectSpendableCoins] returns at the k-th coin read. *)
Definition read_state (env : Env) (k : nat) : SpendableCoinState :=
  let cs := sort_desc (positive_coins (env_coins env k)) in
  {| coins := cs;
     totalBalance := match env_balance env k with Some t => t | None => sum_balances cs end |}.

(** The trace of the polls made with the delays [ds]. *)
Definition poll_trace (a : string) (ds : list Z) : list Event :=
  List.concat (map (fun d => [EvSleep d; EvCollect a]) ds).

(** "Larger balance first". *)
Definition bal_ge (c1 c2 : CoinStruct) : Prop := coin_bal c2 <= coin_bal c1.

(** The three required proof fields are present (truthy) in [o]. *)
Definition holds_proof_fields (o : Json.Json) : bool :=
  Json.truthy (Json.get o "proofPoints") && Json.truthy (Json.get o "issBase64Details")
  && Json.truthy (Json.get o "headerBase64").

(** A successful HTTP reply carrying the JSON body [j]. *)
Definition ok_reply (status : Z) (text : string) (j : Json.Json) : Prover.HttpResponse :=
  {| Prover.http_ok := true; Prover.http_status := status; Prover.http_text := text;
     Prover.http_json := j |}.

(** The proof blob the requestor builds from [src] and a seed. *)
Definition blob_of (src : Json.Json) (seed : string) : StoredZkLoginProof :=
  {| proofPoints := match Json.get src "proofPoints" with Some v => v | None => Json.JNull end;
     issBase64Details :=
       match Json.get src "issBase64Details" with Some v => v | None => Json.JNull end;
     headerBase64 := match Json.get src "headerBase64" with Some v => v | None => Json.JNull end;
     addressSeed := Some seed |}.

(** The result once [src] is chosen: the seed read from [src], or the
    missing-seed error. *)
Definition after_src (src : Json.Json) : string + StoredZkLoginProof :=
  match Json.get src "addressSeed" with
  | Some (Json.JStr s) =>
      if String.eqb s "" then
        inl ("Invalid proof response: missing addressSeed. Keys present: "
             ++ Json.join ", " (Json.object_keys src))
      else inr (blob_of src s)
  | Some (Json.JNum q) => inr (blob_of src (Num.number_to_string q))
  | _ => inl ("Invalid proof response: missing addressSeed. Keys present: "
              ++ Json.join ", " (Json.object_keys src))
  end.

End Ref.

(* ------------------------------------------------------------------------- *)
(** ** Sample inputs *)

Module Samples.
Import Json Types Tx Background.
Local Open Scope string_scope.

Definition sample_session : AccountSession :=
  {| address := "0xa"; provider := twitch; sub := "u1"; aud := "clientA"; maxEpoch := 7;
     createdAt := 100; salt := "42"; randomness := "1"; jwt := "j";
     proof := {| proofPoints := JNull; issBase64Details := JNull; headerBase64 := JNull;
                 addressSeed := None |};
     ephemeralPrivateKey := "k" |}.

Definition sample_coin (id : string) (b : Z) : CoinStruct :=
  {| coinObjectId := id; coin_digest := "d"; coin_version := "1"; coin_balance := Some b |}.

(** A chain on which the k-th coin read sees [coins_at k] and a balance of
    their sum. *)
Definition sample_env (coins_at : nat -> list CoinStruct) (faucet : bool) : Env :=
  {| env_balance := fun _ => None; env_coins := coins_at; env_faucet_ok := faucet;
     env_key_ok := fun _ => true; env_submit := fun _ _ => inr "digest";
     env_tx_from := fun _ => None |}.

Definition sample_world : World := {| w_sessions := []; w_reads := 0; w_trace := [] |}.

(** Transfer of 1.5 SUI. *)
Definition sample_transfer : SerializedTransactionRequest :=
  {| kind := transfer_sui; amount := Some (Num.JFinite (3 # 2)); recipient := Some "0xb";
     bytes := None |}.

(** The three proof fields at top level, with and without a seed. *)
Definition sample_fields : list (string * Json) :=
  [("proofPoints", JObj [("a", JArr [JStr "1"])]); ("issBase64Details", JStr "iss");
   ("headerBase64", JStr "hdr")].

End Samples.

(* ------------------------------------------------------------------------- *)
(** ** Worker effects that leave the store and the signer alone *)

Module Effects.
Import Types Background.

Definition is_submit (ev : Event) : bool :=
  match ev with EvSubmit _ => true | _ => false end.

(** A computation that keeps the session region and only appends events
    other than a submission to the trace. *)
Definition quiet {A} (m : M A) : Prop :=
  forall env w,
    w_sessions (snd (m env w)) = w_sessions w /\
    exists evs, w_trace (snd (m env w)) = w_trace w ++ evs /\
                forallb (fun ev => negb (is_submit ev)) evs = true.

End Effects.

(* ------------------------------------------------------------------------- *)
(** ** Personal-message signing (main.tsx, signPersonalMessage) *)

Module Signing.
Import Types Background Encoding.
Local Open Scope string_scope.

(** The key and zkLogin library calls [signPersonalMessage] makes. *)
Record Signer := {
  (** [Ed25519Keypair.fromSecretKey(base64ToUint8(key))]: the error it
      throws, if any. *)
  sg_key_error : string -> option string;
  (** [genAddressSeed(BigInt(session.salt), 'sub', session.sub,
      session.aud).toString()], or the error thrown. *)
  sg_gen_seed : AccountSession -> string + string;
  (** [getZkLoginSignature] over [keypair.signPersonalMessage(bytes)],
      with the proof inputs of the session and the given seed: the
      signature, or the error thrown (for instance on proof fields of the
      wrong shape). *)
  sg_signature : AccountSession -> string -> list Z -> string + string;
}.

(** The message of the DOMException [atob] throws in the service worker. *)
Definition ATOB_ERROR : string :=
  "Failed to execute 'atob' on 'WorkerGlobalScope': The string to be decoded is not correctly encoded.".

Inductive SignData := SignatureData (signature : string).

Record SignResponse := {
  sresp_type : string;
  sresp_ok : bool;
  sresp_data : option SignData;
  sresp_error : option string;
}.

Definition signPersonalMessage (sg : Signer) (addr : string) (messageBase64 : list Z) :
  M SignResponse :=
  catch
    (session <- getSessionOrThrow addr ;;
     _ <- match sg_key_error sg (ephemeralPrivateKey session) with
          | Some e => throw e
          | None => ret tt
          end ;;
     messageBytes <- match base64ToUint8 messageBase64 with
                     | Some b => ret b
                     | None => throw ATOB_ERROR
                     end ;;
     seed <- match addressSeed (proof session) with
             | Some s => ret s
             | None => lift (sg_gen_seed sg session)
             end ;;
     zkLoginSignature <- lift (sg_signature sg session seed messageBytes) ;;
     ret {| sresp_type := "SIGN_PERSONAL_MESSAGE"; sresp_ok := true;
            sresp_data := Some (SignatureData zkLoginSignature);
            sresp_error := None |})
    (fun error => ret {| sresp_type := "SIGN_PERSONAL_MESSAGE"; sresp_ok := false;
                         sresp_data := None; sresp_error := Some error |}).

(** The failure and success replies of [signPersonalMessage]. *)
Definition sign_fail (e : string) : SignResponse :=
  {| sresp_type := "SIGN_PERSONAL_MESSAGE"; sresp_ok := false; sresp_data := None;
     sresp_error := Some e |}.

Definition sign_ok (sig : string) : SignResponse :=
  {| sresp_type := "SIGN_PERSONAL_MESSAGE"; sresp_ok := true;
     sresp_data := Some (SignatureData sig); sresp_error := None |}.

(** The reply for the outcome of [getZkLoginSignature]. *)
Definition sign_reply (r : string + string) : SignResponse :=
  match r with inr sig => sign_ok sig | inl e => sign_fail e end.

End Signing.

(* ------------------------------------------------------------------------- *)
(** ** Extension settings (shared/storage.ts)

    Strings are byte strings; only ASCII letters are case-folded, which is
    all the patterns below ([/salts], [/ensure], [http]) can observe:
    neither a non-ASCII character nor its case mapping is one of their
    letters. *)

Module Settings.
Local Open Scope string_scope.

(** *** String helpers *)

Definition lower_ascii (c : ascii) : ascii :=
  let n := nat_of_ascii c in
  if (Nat.leb 65 n && Nat.leb n 90)%bool then ascii_of_nat (n + 32) else c.

(** [String.prototype.toLowerCase] on the ASCII letters. *)
Fixpoint to_lower (s : string) : string :=
  match s with
  | EmptyString => EmptyString
  | String c s' => String (lower_ascii c) (to_lower s')
  end.

(** [s.includes(p)]. *)
Fixpoint includes (s p : string) : bool :=
  String.prefix p s ||
  match s with
  | EmptyString => false
  | String _ s' => includes s' p
  end.

(** [s.endsWith(p)]. *)
Fixpoint ends_with (s p : string) : bool :=
  String.eqb s p ||
  match s with
  | EmptyString => false
  | String _ s' => ends_with s' p
  end.

(** [s.replace(/\/$/, '')]: drop one final slash. *)
Fixpoint strip_trailing_slash (s : string) : string :=
  match s with
  | EmptyString => EmptyString
  | String c s' =>
      match s' with
      | EmptyString => if Ascii.eqb c "/" then EmptyString else s
      | _ => String c (strip_trailing_slash s')
      end
  end.

(** [s.replace(/^\//, '')]: drop one leading slash. *)
Definition strip_leading_slash (s : string) : string :=
  match s with
  | String c s' => if Ascii.eqb c "/" then s' else s
  | EmptyString => EmptyString
  end.

(** One attempt of the regular expression [/\/salts(?!\/ensure)\/?$/i] at
    the start of [s]. *)
Definition salts_at (s : string) : bool :=
  match s with
  | String c1 (String c2 (String c3 (String c4 (String c5 (String c6 rest))))) =>
      String.eqb (to_lower (String c1 (String c2 (String c3 (String c4 (String c5
                   (String c6 EmptyString))))))) "/salts"
      && negb (String.prefix "/ensure" (to_lower rest))
      && (String.eqb rest "" || String.eqb rest "/")
  | _ => false
  end.

(** [RegExp.prototype.test]: an attempt at every position. *)
Fixpoint salts_regex_test (s : string) : bool :=
  salts_at s ||
  match s with
  | EmptyString => false
  | String _ s' => salts_regex_test s'
  end.

(** *** Configuration *)

(** [ExtensionConfig] as the code fills it ([BASE_DEFAULT_CONFIG]'s six
    string fields). *)
Record ExtensionConfig := {
  twitchClientId : string;
  saltServiceUrl : string;
  zkProverUrl : string;
  zkProverAuthToken : string;
  backendRegistrationUrl : string;
  nftUploadUrl : string;
}.

(** [Partial<ExtensionConfig>]: a stored or fetched object whose fields may
    be absent. *)
Record PartialConfig := {
  p_twitchClientId : option string;
  p_saltServiceUrl : option string;
  p_zkProverUrl : option string;
  p_zkProverAuthToken : option string;
  p_backendRegistrationUrl : option string;
  p_nftUploadUrl : option string;
}.

Definition empty_partial : PartialConfig :=
  {| p_twitchClientId := None; p_saltServiceUrl := None; p_zkProverUrl := None;
     p_zkProverAuthToken := None; p_backendRegistrationUrl := None; p_nftUploadUrl := None |}.

Definition to_partial (c : ExtensionConfig) : PartialConfig :=
  {| p_twitchClientId := Some (twitchClientId c); p_saltServiceUrl := Some (saltServiceUrl c);
     p_zkProverUrl := Some (zkProverUrl c); p_zkProverAuthToken := Some (zkProverAuthToken c);
     p_backendRegistrationUrl := Some (backendRegistrationUrl c);
     p_nftUploadUrl := Some (nftUploadUrl c) |}.

Definition over (d : string) (o : option string) : string :=
  match o with Some v => v | None => d end.

(** [{ ...base, ...p }]. *)
Definition merge (base : ExtensionConfig) (p : PartialConfig) : ExtensionConfig :=
  {| twitchClientId := over (twitchClientId base) (p_twitchClientId p);
     saltServiceUrl := over (saltServiceUrl base) (p_saltServiceUrl p);
     zkProverUrl := over (zkProverUrl base) (p_zkProverUrl p);
     zkProverAuthToken := over (zkProverAuthToken base) (p_zkProverAuthToken p);
     backendRegistrationUrl := over (backendRegistrationUrl base) (p_backendRegistrationUrl p);
     nftUploadUrl := over (nftUploadUrl base) (p_nftUploadUrl p) |}.

Definition BASE_DEFAULT_CONFIG : ExtensionConfig :=
  {| twitchClientId := ""; saltServiceUrl := "/dummy-salt-service.json";
     zkProverUrl := "https://prover-dev.mystenlabs.com/v1"; zkProverAuthToken := "";
     backendRegistrationUrl := ""; nftUploadUrl := "https://zklogin.wiimdy.kr/api/walrus/upload" |}.

(** [resolveDefaults]: [fetched] is the parsed [config.json] ([None] when
    the fetch fails, its status is not ok or it does not parse). The cache
    holds the first result, and [fetched] is fixed for the worker's life,
    so every call gives this value. *)
Definition resolveDefaults (fetched : option PartialConfig) : ExtensionConfig :=
  match fetched with
  | Some data => merge BASE_DEFAULT_CONFIG data
  | None => BASE_DEFAULT_CONFIG
  end.

Definition sanitizeConfig (config : ExtensionConfig) : ExtensionConfig :=
  if salts_regex_test (saltServiceUrl config) then
    {| twitchClientId := twitchClientId config;
       saltServiceUrl := strip_trailing_slash (saltServiceUrl config) ++ "/ensure";
       zkProverUrl := zkProverUrl config; zkProverAuthToken := zkProverAuthToken config;
       backendRegistrationUrl := backendRegistrationUrl config;
       nftUploadUrl := nftUploadUrl config |}
  else config.

(** [JSON.stringify(a) !== JSON.stringify(b)] on two configs with the same
    key order. *)
Definition config_eqb (a b : ExtensionConfig) : bool :=
  String.eqb (twitchClientId a) (twitchClientId b) &&
  String.eqb (saltServiceUrl a) (saltServiceUrl b) &&
  String.eqb (zkProverUrl a) (zkProverUrl b) &&
  String.eqb (zkProverAuthToken a) (zkProverAuthToken b) &&
  String.eqb (backendRegistrationUrl a) (backendRegistrationUrl b) &&
  String.eqb (nftUploadUrl a) (nftUploadUrl b).

(** [chrome.storage.local] under [CONFIG_KEY], and the number of writes. *)
Record ConfigStore := { stored_config : option PartialConfig; config_writes : nat }.

Definition saveConfig (config : ExtensionConfig) (st : ConfigStore) : ConfigStore :=
  {| stored_config := Some (to_partial (sanitizeConfig config));
     config_writes := S (config_writes st) |}.

Definition loadConfig (fetched : option PartialConfig) (st : ConfigStore) :
  ExtensionConfig * ConfigStore :=
  let defaults := resolveDefaults fetched in
  let merged := merge defaults (match stored_config st with Some p => p | None => empty_partial end) in
  let sanitized := sanitizeConfig merged in
  if negb (config_eqb sanitized merged) then (sanitized, saveConfig sanitized st)
  else (merged, st).

(** The [SAVE_CONFIG] and [GET_CONFIG] branches of [handleMessage]
    (main.tsx). *)
Record ConfigResponse := { cresp_type : string; cresp_ok : bool; cresp_config : ExtensionConfig }.

Definition handleSaveConfig (config : ExtensionConfig) (st : ConfigStore) :
  ConfigResponse * ConfigStore :=
  ({| cresp_type := "SAVE_CONFIG"; cresp_ok := true; cresp_config := config |},
   saveConfig config st).

Definition handleGetConfig (fetched : option PartialConfig) (st : ConfigStore) :
  ConfigResponse * ConfigStore :=
  let (config, st') := loadConfig fetched st in
  ({| cresp_type := "GET_CONFIG"; cresp_ok := true; cresp_config := config |}, st').

(** *** Widget opacity and overlay position *)

(** Numbers are [Num.JsNumber]s. *)
Export Num.

(** [Math.max]. *)
Definition js_max (a b : JsNumber) : JsNumber :=
  match a, b with
  | JNaN, _ | _, JNaN => JNaN
  | JPosInf, _ | _, JPosInf => JPosInf
  | JNegInf, x => x
  | x, JNegInf => x
  | JFinite x, JFinite y => if Qle_bool x y then JFinite y else JFinite x
  end.

(** [Math.min]. *)
Definition js_min (a b : JsNumber) : JsNumber :=
  match a, b with
  | JNaN, _ | _, JNaN => JNaN
  | JNegInf, _ | _, JNegInf => JNegInf
  | JPosInf, x => x
  | x, JPosInf => x
  | JFinite x, JFinite y => if Qle_bool x y then JFinite x else JFinite y
  end.

(** A value read back from [chrome.storage.sync]: a number, or anything
    else ([typeof value !== 'number']). *)
Inductive Stored := SNum (n : JsNumber) | SOther.

Definition DEFAULT_WIDGET_OPACITY : Q := 23 # 25.
Definition MIN_WIDGET_OPACITY : Q := 2 # 5.
Definition MAX_WIDGET_OPACITY : Q := 1.

Definition getWidgetOpacity (value : option Stored) : JsNumber :=
  match value with
  | Some (SNum (JFinite v)) =>
      js_min (JFinite MAX_WIDGET_OPACITY) (js_max (JFinite MIN_WIDGET_OPACITY) (JFinite v))
  | _ => JFinite DEFAULT_WIDGET_OPACITY
  end.

(** The value [setWidgetOpacity] stores. *)
Definition setWidgetOpacity (opacity : JsNumber) : option Stored :=
  Some (SNum (js_min (JFinite MAX_WIDGET_OPACITY) (js_max (JFinite MIN_WIDGET_OPACITY) opacity))).

Record OverlayPosition := { corner : string; offsetX : JsNumber; offsetY : JsNumber }.

(** The stored position object as read back: each field may be missing
    ([None]) or, for the offsets, not a number. A stored value that is not
    an object reads as an object with no fields. *)
Record StoredPosition := {
  sp_corner : option string;
  sp_offsetX : option Stored;
  sp_offsetY : option Stored;
}.

Definition DEFAULT_POSITION : OverlayPosition :=
  {| corner := "top-right"; offsetX := JFinite 20; offsetY := JFinite 20 |}.

(** [Number.isFinite(v) ? v : d]. *)
Definition finite_or (v : option Stored) (d : JsNumber) : JsNumber :=
  match v with Some (SNum (JFinite q)) => JFinite q | _ => d end.

Definition getOverlayPosition (stored : option StoredPosition) : OverlayPosition :=
  match stored with
  | None => DEFAULT_POSITION
  | Some value =>
      {| corner := match sp_corner value with Some c => c | None => corner DEFAULT_POSITION end;
         offsetX := finite_or (sp_offsetX value) (offsetX DEFAULT_POSITION);
         offsetY := finite_or (sp_offsetY value) (offsetY DEFAULT_POSITION) |}
  end.

Definition setOverlayPosition (pos : OverlayPosition) : option StoredPosition :=
  Some {| sp_corner := Some (corner pos); sp_offsetX := Some (SNum (offsetX pos));
          sp_offsetY := Some (SNum (offsetY pos)) |}.

End Settings.

(* ------------------------------------------------------------------------- *)
(** ** [buildAccountOverview] (popup/main.tsx): the NFT list and the recent
    transactions it builds from the RPC replies. *)
Module Overview.
Import Json.
Local Open Scope string_scope.

(** [xs ?? []]. *)
Definition or_empty {A} (o : option (list A)) : list A :=
  match o with Some l => l | None => [] end.

(** *** NFTs *)

(** [item.data] of a [getOwnedObjects] entry: [display.data] ([None] when
    [display] or its [data] is absent), [type] and [objectId]. *)
Record ObjectData := {
  od_display : option Json;
  od_type : option string;
  od_objectId : option string;
}.

Record SuiObject := { obj_data : option ObjectData }.

Record NftEntry := {
  nft_display : string;
  nft_objectId : string;
  nft_description : option string;
}.

(** [typeof display?.[k] === 'string' ? display[k] : null]. *)
Definition display_string (item : SuiObject) (k : string) : option string :=
  match obj_data item with
  | Some d =>
      match od_display d with
      | Some disp => match get disp k with Some (JStr s) => Some s | _ => None end
      | None => None
      end
  | None => None
  end.

Definition item_type (item : SuiObject) : string :=
  match obj_data item with
  | Some d => match od_type d with Some t => t | None => "unknown" end
  | None => "unknown"
  end.

Definition item_objectId (item : SuiObject) : string :=
  match obj_data item with
  | Some d => match od_objectId d with Some i => i | None => "unknown" end
  | None => "unknown"
  end.

(** The [reduce] building [nfts]; [objectResponse] is [None] when
    [getOwnedObjects] rejects ([.catch(() => ({ data: [] }))]). *)
Definition nfts (objectResponse : option (list SuiObject)) : list NftEntry :=
  fold_left
    (fun (list_ : list NftEntry) item =>
       let name := display_string item "name" in
       let description := display_string item "description" in
       let type_ := item_type item in
       let not_name := match name with Some s => String.eqb s "" | None => true end in
       if not_name && String.prefix "0x2::coin::" type_ then list_
       else (list_ ++ [{| nft_display := match name with Some n => n | None => type_ end;
                        nft_objectId := item_objectId item;
                        nft_description :=
                          match description with
                          | Some d => if String.eqb d "" then None else Some d
                          | None => None
                          end |}])%list)
    (or_empty objectResponse) [].

(** *** Recent transactions *)

(** A [queryTransactionBlocks] entry: [digest], the transaction kind
    ([tx.transaction?.data.transaction.kind]) and [timestampMs], a decimal
    string of milliseconds, here the integer it denotes (well below 2^53,
    so [Number] reads it exactly). *)
Record TxBlock := {
  tb_digest : string;
  tb_kind : option string;
  tb_timestampMs : option Z;
}.

Record RecentTx := {
  rt_digest : string;
  rt_kind : string;
  rt_timestampMs : option Z;
}.

Definition to_recent (tx : TxBlock) : RecentTx :=
  {| rt_digest := tb_digest tx;
     rt_kind := match tb_kind tx with Some k => k | None => "unknown" end;
     rt_timestampMs := tb_timestampMs tx |}.

(** [deduped.has(d)] on the map's entries, kept in insertion order. *)
Definition has_digest (d : string) (deduped : list RecentTx) : bool :=
  existsb (fun r => String.eqb (rt_digest r) d) deduped.

(** [appendTx]: the first entry for a digest wins. *)
Definition appendTx (deduped : list RecentTx) (txList : option (list TxBlock)) :
  list RecentTx :=
  fold_left
    (fun acc tx => if has_digest (tb_digest tx) acc then acc else (acc ++ [to_recent tx])%list)
    (or_empty txList) deduped.

(** [Number(t.timestampMs ?? 0)]. *)
Definition ts_of (r : RecentTx) : Z :=
  match rt_timestampMs r with Some t => t | None => 0 end.

(** [Array.prototype.sort] with [(a, b) => ts(b) - ts(a)]: the sort is
    stable and the comparator consistent, so the result is the unique
    stable order by decreasing timestamp, computed here by insertion. *)
Fixpoint insert_by_time (r : RecentTx) (l : list RecentTx) : list RecentTx :=
  match l with
  | [] => [r]
  | y :: l' => if (ts_of y <? ts_of r)%Z then r :: l else y :: insert_by_time r l'
  end.

Definition sort_by_time (l : list RecentTx) : list RecentTx :=
  fold_left (fun acc r => insert_by_time r acc) l [].

Definition recentTransactions (incoming outgoing : option (list TxBlock)) :
  list RecentTx :=
  firstn 10 (sort_by_time (appendTx (appendTx [] incoming) outgoing)).

(** *** Vocabulary of the properties below *)

(** The first transaction with digest [d] in [txs]. *)
Definition first_tx (d : string) (txs : list TxBlock) : option TxBlock :=
  find (fun tx => String.eqb (tb_digest tx) d) txs.

(** An owned object left out of [nfts]: no non-empty string name and a
    coin type. *)
Definition nft_skipped (item : SuiObject) : bool :=
  match display_string item "name" with Some s => String.eqb s "" | None => true end
  && String.prefix "0x2::coin::" (item_type item).

(** The entry listed for a kept object. *)
Definition nft_entry (item : SuiObject) : NftEntry :=
  {| nft_display := match display_string item "name" with Some n => n | None => item_type item end;
     nft_objectId := item_objectId item;
     nft_description :=
       match display_string item "description" with
       | Some d => if String.eqb d "" then None else Some d
       | None => None
       end |}.

(** [deduped.get(d)]. *)
Definition lookup (d : string) (l : list RecentTx) : option RecentTx :=
  find (fun r => String.eqb (rt_digest r) d) l.

(** One [forEach] step of [appendTx]. *)
Definition step (acc : list RecentTx) (tx : TxBlock) : list RecentTx :=
  if has_digest (tb_digest tx) acc then acc else (acc ++ [to_recent tx])%list.

(** The order [recentTransactions] is sorted in. *)
Definition newer (a b : RecentTx) : Prop := (ts_of b <= ts_of a)%Z.

End Overview.

(* ------------------------------------------------------------------------- *)
(** ** [resolveSalt] and [fetchSalt] (popup/main.tsx) *)
Module Salt.
Import Json Prover Settings.
Local Open Scope string_scope.

(** The request [fetch] receives: URL, method and JSON body; the
    [Content-Type: application/json] header goes with the body. *)
Record SaltRequest := { req_url : string; req_method : string; req_body : option Json }.

Definition INVALID_ENSURE_MSG : string := "Invalid salt ensure response: missing salt".
Definition MISSING_SALT_MSG : string := "Salt service response missing salt field.".
(** The [TypeError] V8 raises for [data.salt] when the body is [null]. *)
Definition NULL_SALT_MSG : string := "Cannot read properties of null (reading 'salt')".

(** [fetchSalt]: [fetch] answers a request (its body parses as JSON);
    [getURL] is [chrome.runtime.getURL]. The result pairs the request with
    the salt or the error message. *)
Definition fetchSalt (fetch : SaltRequest -> HttpResponse) (getURL : string -> string)
    (url jwt : string) : SaltRequest * (string + Json) :=
  let targetUrl := if negb (is_http_url url) then getURL (strip_leading_slash url) else url in
  let isDummy := ends_with targetUrl "dummy-salt-service.json" in
  let request := {| req_url := targetUrl;
                    req_method := if isDummy then "GET" else "POST";
                    req_body := if isDummy then None else Some (JObj [("jwt", JStr jwt)]) |} in
  let response := fetch request in
  (request,
   if negb (http_ok response) then
     inl ("Salt service responded with status " ++ Num.decimal (http_status response))
   else
     match http_json response with
     | JNull => inl NULL_SALT_MSG
     | data =>
         match get data "salt" with
         | Some v => if truthy (Some v) then inr v else inl MISSING_SALT_MSG
         | None => inl MISSING_SALT_MSG
         end
     end).

Definition resolveSalt (fetch : SaltRequest -> HttpResponse) (getURL : string -> string)
    (url twitchId jwt : string) : SaltRequest * (string + Json) :=
  let lower := to_lower url in
  if includes lower "/salts" then
    let ensureEndpoint :=
      if includes (to_lower url) "/ensure" then url else strip_trailing_slash url ++ "/ensure" in
    let request := {| req_url := ensureEndpoint; req_method := "POST";
                      req_body := Some (JObj [("jwt", JStr jwt); ("twitchId", JStr twitchId)]) |} in
    let resp := fetch request in
    (request,
     if negb (http_ok resp) then
       inl ("Salt ensure failed (HTTP " ++ Num.decimal (http_status resp) ++ "): "
            ++ http_text resp)
     else
       match get (http_json resp) "salt" with
       | Some (JStr value) => if String.eqb value "" then inl INVALID_ENSURE_MSG else inr (JStr value)
       | _ => inl INVALID_ENSURE_MSG
       end)
  else fetchSalt fetch getURL url jwt.

End Salt.

(* ------------------------------------------------------------------------- *)
(** ** [uploadNftImage] (popup/main.tsx), from the endpoint on *)
Module Upload.
Import Json Settings.
Local Open Scope string_scope.

(** A string's characters stand for its UTF-16 code units, here below 256;
    among those, [String.prototype.trim] removes 9 to 13, 32 and 160. *)
Definition is_js_space (c : ascii) : bool :=
  let n := nat_of_ascii c in
  ((Nat.leb 9 n && Nat.leb n 13) || Nat.eqb n 32 || Nat.eqb n 160)%bool.

Fixpoint trim_start (s : string) : string :=
  match s with
  | EmptyString => EmptyString
  | String c s' => if is_js_space c then trim_start s' else s
  end.

Fixpoint trim_end (s : string) : string :=
  match s with
  | EmptyString => EmptyString
  | String c s' =>
      let t := trim_end s' in
      if String.eqb t "" && is_js_space c then EmptyString else String c t
  end.

Definition js_trim (s : string) : string := trim_end (trim_start s).

(** The upload reply: [response.ok], [status], the [content-type] header,
    [response.text()], and [responseClone.json()] ([None] when the body
    does not parse). *)
Record UploadResponse := {
  up_ok : bool;
  up_status : Z;
  up_content_type : option string;
  up_text : string;
  up_json : option Json;
}.

Inductive UploadResult := RJson (j : Json) | RText (s : string).

(** [data] of the success reply; [ud_message] and [ud_result] are the
    optional spread fields. *)
Record UploadData := {
  ud_status : string;
  ud_message : option string;
  ud_result : option UploadResult;
}.

Definition NOT_CONFIGURED_MSG : string :=
  "NFT upload endpoint is not configured. Set it in the extension options.".

(** The reply handling after [response.ok]. *)
Definition upload_reply (response : UploadResponse) : UploadData :=
  let respType := match up_content_type response with Some t => t | None => "" end in
  let parsed : option UploadResult * option string :=
    if includes respType "application/json" then
      match up_json response with
      | Some result =>
          (Some (RJson result),
           if truthy (Some result) && is_object (Some result) then
             match get result "message" with
             | Some (JStr m) => Some m
             | _ => match get result "url" with Some (JStr u) => Some u | _ => None end
             end
           else None)
      | None => (None, None)
      end
    else (None, None) in
  let '(result, messageText) :=
    match fst parsed with
    | None =>
        let text := up_text response in
        (Some (RText text),
         match snd parsed with
         | Some m => Some m
         | None => if String.eqb text "" then None else Some text
         end)
    | Some r => (Some r, snd parsed)
    end in
  {| ud_status := "ok";
     ud_message := match messageText with
                   | Some m => if String.eqb m "" then None else Some m
                   | None => None
                   end;
     ud_result := result |}.

(** [uploadNftImage] (main.tsx): [loadConfig()] and
    [getSessionOrThrow(address)] run together; [fetch endpoint] is the
    reply to the POST of the PNG blob ([ensurePngBlob] catches its own
    errors, so there is always a blob). The result gives the config store
    after [loadConfig], the endpoints requested, and the reply data or the
    error message. *)
Definition uploadNftImage (fetch : string -> UploadResponse)
  (fetched : option PartialConfig) (st : ConfigStore)
  (sessions : list Types.AccountSession) (address : string) :
  ConfigStore * list string * (string + UploadData) :=
  let (config, st') := loadConfig fetched st in
  match Background.find_session address sessions with
  | None => (st', [], inl Background.NO_SESSION_MSG)
  | Some _ =>
      let endpoint := js_trim (nftUploadUrl config) in
      if String.eqb endpoint "" then (st', [], inl NOT_CONFIGURED_MSG)
      else
        let response := fetch endpoint in
        (st', [endpoint],
         if negb (up_ok response) then
           inl ("Upload failed (HTTP " ++ Num.decimal (up_status response) ++ "): "
                ++ up_text response)
         else inr (upload_reply response))
  end.

End Upload.

(* ========================================================================= *)
(** * Proofs *)

(** ** Generic helpers *)

Lemma list_ind3 {A} (P : list A -> Prop) :
  P [] -> (forall a, P [a]) -> (forall a b, P [a; b]) ->
  (forall a b c rest, P rest -> P (a :: b :: c :: rest)) ->
  forall l, P l.
Proof.
  intros H0 H1 H2 H3.
  fix F 1. intros [|a [|b [|c rest]]].
  - exact H0.
  - apply H1.
  - apply H2.
  - apply H3, F.
Qed.

(** A boolean property checked on an explicit range holds on the range. *)
Lemma forall_range (P : Z -> bool) (lo : Z) (n : nat) :
  forallb P (map (fun k => lo + Z.of_nat k) (seq 0 n)) = true ->
  forall v, lo <= v < lo + Z.of_nat n -> P v = true.
Proof.
  intros H v Hv. rewrite forallb_forall in H. apply H.
  apply in_map_iff. exists (Z.to_nat (v - lo)). split.
  - rewrite Z2Nat.id; lia.
  - apply in_seq. lia.
Qed.

Lemma div_split q r d : 0 <= r < d -> (q * d + r) / d = q /\ (q * d + r) mod d = r.
Proof.
  intros H. split.
  - symmetry. apply (Z.div_unique _ _ _ r); lia.
  - symmetry. apply (Z.mod_unique _ _ q); lia.
Qed.

(** Base-64 digits of a number below [2^24]. *)
Lemma digits24 n : 0 <= n < 2^24 ->
  n = (n / 2^18) * 2^18 + ((n / 2^12) mod 64) * 2^12 + ((n / 2^6) mod 64) * 2^6 + n mod 64
  /\ n / 2^6 = (n / 2^18) * 2^12 + ((n / 2^12) mod 64) * 2^6 + (n / 2^6) mod 64
  /\ n / 2^12 = (n / 2^18) * 2^6 + (n / 2^12) mod 64
  /\ 0 <= n / 2^18 < 64 /\ 0 <= (n / 2^12) mod 64 < 64
  /\ 0 <= (n / 2^6) mod 64 < 64 /\ 0 <= n mod 64 < 64.
Proof.
  intros H. change (2^24) with 16777216 in H.
  replace (2^18) with (64*64*64) by reflexivity.
  replace (2^12) with (64*64) by reflexivity. change (2^6) with 64.
  rewrite <- !Z.div_div by lia.
  pose proof (Z.div_mod n 64 ltac:(lia)). pose proof (Z.mod_pos_bound n 64 ltac:(lia)).
  pose proof (Z.div_mod (n/64) 64 ltac:(lia)).
  pose proof (Z.mod_pos_bound (n/64) 64 ltac:(lia)).
  pose proof (Z.div_mod (n/64/64) 64 ltac:(lia)).
  pose proof (Z.mod_pos_bound (n/64/64) 64 ltac:(lia)).
  pose proof (Z.div_pos n 64 ltac:(lia) ltac:(lia)).
  pose proof (Z.div_pos (n/64) 64 ltac:(lia) ltac:(lia)).
  pose proof (Z.div_pos (n/64/64) 64 ltac:(lia) ltac:(lia)).
  set (q3 := n/64/64/64) in *. set (q2 := n/64/64) in *. set (q1 := n/64) in *.
  set (r3 := q2 mod 64) in *. set (r2 := q1 mod 64) in *. set (r1 := n mod 64) in *.
  clearbody q1 q2 q3 r1 r2 r3.
  repeat split; lia.
Qed.

Module EncodingProofs.
Import Encoding.

Lemma chunk3_ok a b c : is_byte a -> is_byte b -> is_byte c ->
  let n := a * 2^16 + b * 2^8 + c in
  let vs := [n / 2^18; (n / 2^12) mod 64; (n / 2^6) mod 64; n mod 64] in
  Forall (fun v => 0 <= v < 64) vs /\ decode_sextets vs = [a; b; c].
Proof.
  unfold is_byte. intros Ha Hb Hc. cbv zeta.
  set (n := a * 2^16 + b * 2^8 + c).
  assert (Hn : 0 <= n < 2^24) by (unfold n; cbn; lia).
  destruct (digits24 n Hn) as (E & _ & _ & R1 & R2 & R3 & R4).
  split.
  - repeat constructor; lia.
  - cbn [decode_sextets]. rewrite <- E. unfold n. clear E R1 R2 R3 R4 Hn n.
    cbn [app]. change (2^16) with 65536; change (2^8) with 256.
    replace (a * 65536 + b * 256 + c) with ((a * 256 + b) * 256 + c) by ring.
    destruct (div_split (a * 256 + b) c 256 Hc) as [-> ->].
    destruct (div_split a b 256 Hb) as [_ ->].
    replace ((a * 256 + b) * 256 + c) with (a * 65536 + (b * 256 + c)) by ring.
    destruct (div_split a (b * 256 + c) 65536 ltac:(lia)) as [-> _].
    reflexivity.
Qed.

Lemma chunk2_ok a b : is_byte a -> is_byte b ->
  let n := a * 2^16 + b * 2^8 in
  let vs := [n / 2^18; (n / 2^12) mod 64; (n / 2^6) mod 64] in
  Forall (fun v => 0 <= v < 64) vs /\ decode_sextets vs = [a; b].
Proof.
  unfold is_byte. intros Ha Hb. cbv zeta.
  set (n := a * 2^16 + b * 2^8).
  assert (Hn : 0 <= n < 2^24) by (unfold n; cbn; lia).
  destruct (digits24 n Hn) as (_ & E & _ & R1 & R2 & R3 & R4).
  split.
  - repeat constructor; lia.
  - cbn [decode_sextets]. rewrite <- E. unfold n. clear E R1 R2 R3 R4 Hn n.
    change (2^16) with 65536; change (2^8) with 256; change (2^6) with 64.
    replace (a * 65536 + b * 256) with ((a * 1024 + b * 4) * 64 + 0) by ring.
    destruct (div_split (a * 1024 + b * 4) 0 64 ltac:(lia)) as [-> _].
    replace (a * 1024 + b * 4) with ((a * 256 + b) * 4 + 0) by ring.
    destruct (div_split (a * 256 + b) 0 4 ltac:(lia)) as [-> _].
    destruct (div_split a b 256 Hb) as [-> ->].
    reflexivity.
Qed.

Lemma chunk1_ok a : is_byte a ->
  let n := a * 2^16 in
  let vs := [n / 2^18; (n / 2^12) mod 64] in
  Forall (fun v => 0 <= v < 64) vs /\ decode_sextets vs = [a].
Proof.
  unfold is_byte. intros Ha. cbv zeta.
  set (n := a * 2^16).
  assert (Hn : 0 <= n < 2^24) by (unfold n; cbn; lia).
  destruct (digits24 n Hn) as (_ & _ & E & R1 & R2 & R3 & R4).
  split.
  - repeat constructor; lia.
  - cbn [decode_sextets]. rewrite <- E. unfold n. clear E R1 R2 R3 R4 Hn n.
    change (2^16) with 65536; change (2^12) with 4096.
    replace (a * 65536) with ((a * 16) * 4096 + 0) by ring.
    destruct (div_split (a * 16) 0 4096 ltac:(lia)) as [-> _].
    replace (a * 16) with (a * 16 + 0) by ring.
    destruct (div_split a 0 16 ltac:(lia)) as [-> _].
    reflexivity.
Qed.

Lemma b64_encode_split bs :
  b64_encode bs = map b64_char (b64_sextets bs) ++ b64_pad bs.
Proof.
  induction bs as [|a|a b|a b c rest IH] using list_ind3; try reflexivity.
  cbn [b64_encode b64_sextets b64_pad]. rewrite IH, map_app, app_assoc. reflexivity.
Qed.

Lemma decode_sextets_app4 w x y z rest :
  decode_sextets ([w; x; y; z] ++ rest) = decode_sextets [w; x; y; z] ++ decode_sextets rest.
Proof. reflexivity. Qed.

Lemma b64_sextets_ok bs : Forall is_byte bs ->
  Forall (fun v => 0 <= v < 64) (b64_sextets bs) /\ decode_sextets (b64_sextets bs) = bs.
Proof.
  induction bs as [|a|a b|a b c rest IH] using list_ind3; intros H.
  - split; [constructor | reflexivity].
  - inversion H; subst. apply chunk1_ok; assumption.
  - inversion H as [|? ? Ha T1]; inversion T1; subst. apply chunk2_ok; assumption.
  - inversion H as [|? ? Ha T1]; inversion T1 as [|? ? Hb T2];
      inversion T2 as [|? ? Hc T3]; subst.
    destruct (IH T3) as [IR ID].
    destruct (chunk3_ok a b c Ha Hb Hc) as [CR CD].
    cbn [b64_sextets]. split.
    + apply Forall_app. split; assumption.
    + rewrite decode_sextets_app4, CD, ID. reflexivity.
Qed.

Lemma b64_lengths bs :
  (Nat.modulo (List.length (b64_sextets bs) + List.length (b64_pad bs)) 4 = 0)%nat /\
  (Nat.modulo (List.length (b64_sextets bs)) 4 <> 1)%nat /\
  (b64_pad bs = [] \/ b64_pad bs = [61] \/ b64_pad bs = [61; 61]) /\
  (b64_pad bs <> [] -> b64_sextets bs <> []).
Proof.
  induction bs as [|a|a b|a b c rest IH] using list_ind3.
  1-3: cbn; repeat split; auto; congruence.
  cbn [b64_sextets b64_pad app List.length].
  destruct IH as (L1 & L2 & L3 & L4). refine (conj _ (conj _ (conj L3 _))).
    + replace (S (S (S (S (List.length (b64_sextets rest))))) + List.length (b64_pad rest))%nat
        with ((List.length (b64_sextets rest) + List.length (b64_pad rest)) + 1 * 4)%nat
        by lia.
      rewrite Nat.Div0.mod_add. exact L1.
    + replace (S (S (S (S (List.length (b64_sextets rest))))))%nat
        with (List.length (b64_sextets rest) + 1 * 4)%nat by lia.
      rewrite Nat.Div0.mod_add. exact L2.
    + intros _. congruence.
Qed.

Lemma char_good_all v : 0 <= v < 64 -> char_good v = true.
Proof.
  intros H. apply (forall_range char_good 0 64); [vm_compute; reflexivity | lia].
Qed.

Lemma b64_char_props v : 0 <= v < 64 ->
  b64_val (b64_char v) = Some v /\ b64_char v <> 61 /\ is_ascii_whitespace (b64_char v) = false.
Proof.
  intros H. pose proof (char_good_all v H) as G. unfold char_good in G.
  destruct (b64_val (b64_char v)) as [v'|]; [|discriminate].
  apply andb_prop in G as [G G3]. apply andb_prop in G as [G1 G2].
  apply Z.eqb_eq in G1. subst v'. apply negb_true_iff in G2, G3.
  apply Z.eqb_neq in G2. auto.
Qed.

Lemma traverse_map_char vs : Forall (fun v => 0 <= v < 64) vs ->
  traverse_val (map b64_char vs) = Some vs.
Proof.
  induction 1 as [|v vs Hv _ IH]; [reflexivity|].
  cbn. destruct (b64_char_props v Hv) as [-> _]. rewrite IH. reflexivity.
Qed.

Lemma filter_encoded vs pad : Forall (fun v => 0 <= v < 64) vs ->
  (pad = [] \/ pad = [61] \/ pad = [61; 61]) ->
  filter (fun c => negb (is_ascii_whitespace c)) (map b64_char vs ++ pad) = map b64_char vs ++ pad.
Proof.
  intros Hvs Hpad. rewrite filter_app. f_equal.
  - induction Hvs as [|v vs Hv _ IH]; [reflexivity|].
    cbn. destruct (b64_char_props v Hv) as (_ & _ & ->). cbn. rewrite IH. reflexivity.
  - destruct Hpad as [-> | [-> | ->]]; reflexivity.
Qed.

Lemma strip_padding_encoded vs pad : Forall (fun v => 0 <= v < 64) vs ->
  (pad = [] \/ pad = [61] \/ pad = [61; 61]) -> (pad <> [] -> vs <> []) ->
  strip_padding (map b64_char vs ++ pad) = map b64_char vs.
Proof.
  intros Hvs Hpad Hne. unfold strip_padding. rewrite rev_app_distr.
  destruct Hpad as [-> | [-> | ->]].
  - cbn [rev app]. rewrite app_nil_r.
    destruct (rev (map b64_char vs)) as [|x r] eqn:E; [reflexivity|].
    assert (Hx : In x (map b64_char vs)) by (apply in_rev; rewrite E; left; reflexivity).
    apply in_map_iff in Hx as (v & <- & Hv).
    rewrite Forall_forall in Hvs. destruct (b64_char_props v (Hvs v Hv)) as (_ & N & _).
    apply Z.eqb_neq in N. rewrite N. reflexivity.
  - cbn [rev app]. cbn. rewrite rev_involutive.
    destruct (rev (map b64_char vs)) as [|x r] eqn:E.
    + apply (f_equal (@rev Z)) in E. rewrite rev_involutive in E. cbn in E.
      destruct vs; [exfalso; apply Hne; congruence | discriminate].
    + assert (Hx : In x (map b64_char vs)) by (apply in_rev; rewrite E; left; reflexivity).
      apply in_map_iff in Hx as (v & <- & Hv).
      rewrite Forall_forall in Hvs. destruct (b64_char_props v (Hvs v Hv)) as (_ & N & _).
      apply Z.eqb_neq in N. rewrite N.
      apply (f_equal (@rev Z)) in E. rewrite rev_involutive in E. rewrite E. reflexivity.
  - cbn. rewrite rev_involutive. reflexivity.
Qed.

Lemma atob_b64_encode bs : Forall is_byte bs -> atob (b64_encode bs) = Some bs.
Proof.
  intros H. destruct (b64_sextets_ok bs H) as [HR HD].
  destruct (b64_lengths bs) as (L1 & L2 & L3 & L4).
  rewrite b64_encode_split. unfold atob.
  rewrite (filter_encoded _ _ HR L3).
  rewrite length_app, length_map.
  rewrite (proj2 (Nat.eqb_eq _ _) L1).
  rewrite (strip_padding_encoded _ _ HR L3 L4).
  rewrite length_map. rewrite (proj2 (Nat.eqb_neq _ _) L2).
  rewrite (traverse_map_char _ HR). rewrite HD. reflexivity.
Qed.

End EncodingProofs.

Module EncodingClaims.
Import Encoding EncodingProofs.

(** C10: for every byte array [b] (elements in 0..255), [uint8ToBase64]
    succeeds and [base64ToUint8] of its result gives back [b]: same length,
    same element at every index. *)
Theorem base64_roundtrip (b : list Z) (Hb : Forall is_byte b) :
  exists s, uint8ToBase64 b = Some s /\ base64ToUint8 s = Some b.
Proof.
  assert (Hid : map fromCharCode b = b).
  { induction Hb as [|x l Hx _ IH]; [reflexivity|].
    cbn. rewrite IH. unfold fromCharCode, is_byte in *. rewrite Z.mod_small; [reflexivity|].
    change (2^16) with 65536. lia. }
  assert (Hchk : forallb (fun c => (0 <=? c) && (c <=? 255)) b = true).
  { apply forallb_forall. intros x Hx. rewrite Forall_forall in Hb.
    specialize (Hb x Hx). unfold is_byte in Hb. apply andb_true_iff; split; lia. }
  exists (b64_encode b). split.
  - unfold uint8ToBase64, btoa. rewrite Hid, Hchk. reflexivity.
  - unfold base64ToUint8. rewrite (atob_b64_encode b Hb). f_equal.
    clear Hid Hchk. induction Hb as [|x l Hx _ IH]; [reflexivity|].
    cbn. rewrite IH. unfold is_byte in Hx. rewrite Z.mod_small by lia. reflexivity.
Qed.

Lemma base64_roundtrip_witness :
  Forall is_byte [0; 255; 7; 128] /\
  exists s, uint8ToBase64 [0; 255; 7; 128] = Some s /\ base64ToUint8 s = Some [0; 255; 7; 128].
Proof.
  assert (H : Forall is_byte [0; 255; 7; 128]).
  { unfold is_byte. repeat constructor; lia. }
  split; [exact H | apply (base64_roundtrip [0; 255; 7; 128] H)].
Defined.

End EncodingClaims.

Module FieldClaims.
Import Field.

(** C1: for a nonnegative salt [s], [normalizeToField s] is [s mod
    FIELD_MODULUS_BN254] when that remainder is nonzero and [1] when it is
    zero; so the reduced salt is never [0]. *)
Theorem normalizeToField_spec (s : Z) (Hs : 0 <= s) :
  normalizeToField s =
    (if s mod FIELD_MODULUS_BN254 =? 0 then 1 else s mod FIELD_MODULUS_BN254)
  /\ normalizeToField s <> 0.
Proof.
  unfold normalizeToField.
  rewrite Z.rem_mod_nonneg by (unfold FIELD_MODULUS_BN254; lia).
  split; [reflexivity|].
  destruct (Z.eqb_spec (s mod FIELD_MODULUS_BN254) 0); [discriminate | assumption].
Qed.

Lemma normalizeToField_spec_witness :
  normalizeToField FIELD_MODULUS_BN254 = 1 /\ normalizeToField 42 = 42 /\
  normalizeToField FIELD_MODULUS_BN254 =
    (if FIELD_MODULUS_BN254 mod FIELD_MODULUS_BN254 =? 0 then 1
     else FIELD_MODULUS_BN254 mod FIELD_MODULUS_BN254)
  /\ normalizeToField FIELD_MODULUS_BN254 <> 0.
Proof.
  split; [vm_compute; reflexivity|]. split; [vm_compute; reflexivity|].
  apply (normalizeToField_spec FIELD_MODULUS_BN254). unfold FIELD_MODULUS_BN254. lia.
Defined.

End FieldClaims.

(** ** Session store *)

Module StoreProofs.
Import Types Store.
Local Open Scope string_scope.

Lemma addresses_filter_NoDup (keep : AccountSession -> bool) st :
  NoDup (map address st) -> NoDup (map address (filter keep st)).
Proof.
  induction st as [|s rest IH]; intros H; cbn in *; [exact H|].
  apply NoDup_cons_iff in H as [Hnot Hrest].
  destruct (keep s) eqn:Hk; cbn; [|exact (IH Hrest)].
  apply NoDup_cons; [|exact (IH Hrest)].
  rewrite in_map_iff. intros (s' & Heq & Hs').
  apply Hnot, in_map_iff. exists s'. split; [exact Heq|].
  exact (proj1 (proj1 (filter_In keep s' rest) Hs')).
Qed.

Lemma not_in_without_address a st : ~ In a (map address (without_address a st)).
Proof.
  intros Hin. apply in_map_iff in Hin as (y & Hy & Hin).
  apply filter_In in Hin as [_ Hp]. rewrite Hy, String.eqb_refl in Hp. discriminate.
Qed.

Lemma login_update_NoDup st s :
  NoDup (map address st) -> NoDup (map address (login_update st s)).
Proof.
  intros H. cbn. constructor.
  - apply not_in_without_address.
  - apply addresses_filter_NoDup, H.
Qed.

Lemma reachable_NoDup st : reachable st -> NoDup (map address st).
Proof.
  induction 1 as [|st st' _ IH Hs]; [constructor|].
  inversion Hs as [? o | ? a]; subst.
  - destruct o; [exact IH | apply login_update_NoDup, IH].
  - apply addresses_filter_NoDup, IH.
Qed.

Lemma same_address_without a st :
  filter (fun e => String.eqb (address e) a) (without_address a st) = [].
Proof.
  induction st as [|x st IH]; cbn; [reflexivity|].
  destruct (String.eqb (address x) a) eqn:E; cbn; [exact IH|].
  rewrite E. exact IH.
Qed.

Lemma without_address_idem a st :
  without_address a (without_address a st) = without_address a st.
Proof.
  induction st as [|x st IH]; [reflexivity|].
  unfold without_address in *. cbn.
  destruct (String.eqb (address x) a) eqn:E; cbn; [exact IH|].
  rewrite E. cbn. rewrite IH. reflexivity.
Qed.

Lemma login_update_shape st s :
  hd_error (login_update st s) = Some s /\
  filter (fun e => String.eqb (address e) (address s)) (login_update st s) = [s] /\
  without_address (address s) (login_update st s) = without_address (address s) st.
Proof.
  split; [reflexivity|]. split.
  - cbn. rewrite String.eqb_refl, same_address_without. reflexivity.
  - unfold login_update. cbn [without_address filter].
    rewrite String.eqb_refl. cbn. apply without_address_idem.
Qed.

(** C2: every reachable store holds at most one session per address; a
    successful login for address [a] leaves exactly the new session for [a],
    at the front, and every session for another address unchanged and in
    order; two logins for the same address leave only the second session
    (the later one, whose [createdAt] is the later [Date.now()]). *)
Theorem store_one_session_per_address (st : list AccountSession) (Hr : reachable st) :
  NoDup (map address st) /\
  (forall s,
      reachable (login_update st s) /\
      hd_error (login_update st s) = Some s /\
      filter (fun e => String.eqb (address e) (address s)) (login_update st s) = [s] /\
      without_address (address s) (login_update st s) = without_address (address s) st) /\
  (forall s1 s2, address s1 = address s2 ->
      filter (fun e => String.eqb (address e) (address s2))
             (login_update (login_update st s1) s2) = [s2]).
Proof.
  split; [apply reachable_NoDup, Hr|]. split.
  - intros s. split.
    + apply (reach_step st (login_update st s) Hr (step_login st (LoginBuilt s))).
    + apply login_update_shape.
  - intros s1 s2 _. apply login_update_shape.
Qed.

Lemma store_one_session_per_address_witness :
  let sess (a u : string) : AccountSession :=
    {| address := a; provider := twitch; sub := u; aud := "clientA"; maxEpoch := 7;
       createdAt := 100; salt := "42"; randomness := "1"; jwt := "j";
       proof := proof Samples.sample_session; ephemeralPrivateKey := "k" |} in
  let st := logout_update
              (login_update (login_update (login_update [] (sess "0xa" "u1")) (sess "0xb" "u2"))
                 (sess "0xa" "u3")) "0xb" in
  reachable st /\ map address st = ["0xa"%string] /\ map sub st = ["u3"%string] /\
  NoDup (map address st) /\
  filter (fun e => String.eqb (address e) "0xa")
    (login_update (login_update st (sess "0xa" "u4")) (sess "0xa" "u5")) = [sess "0xa" "u5"].
Proof.
  intros sess st.
  assert (Hr : reachable st).
  { unfold st.
    eapply reach_step; [|apply step_logout].
    eapply reach_step; [|apply (step_login _ (LoginBuilt (sess "0xa" "u3")))].
    eapply reach_step; [|apply (step_login _ (LoginFailed "Invalid Twitch token"))].
    eapply reach_step; [|apply (step_login _ (LoginBuilt (sess "0xb" "u2")))].
    eapply reach_step; [|apply (step_login _ (LoginBuilt (sess "0xa" "u1")))].
    apply reach_init. }
  destruct (store_one_session_per_address st Hr) as (Hnd & _ & Hsame).
  split; [exact Hr|]. split; [reflexivity|]. split; [reflexivity|].
  split; [exact Hnd|].
  apply (Hsame (sess "0xa" "u4") (sess "0xa" "u5")). reflexivity.
Defined.

End StoreProofs.

(** ** Public projection *)

Module ProjectionProofs.
Import Types Store Ref.

(** C8: sessions that agree on the six public fields have equal
    projections, whatever their [salt], [randomness], [jwt], [proof] and
    [ephemeralPrivateKey]; both projection functions agree, and a projection
    holds exactly the six public fields of its session. *)
Theorem public_projection_hides_secrets (l1 l2 : list AccountSession)
  (H : Forall2 public_agree l1 l2) :
  sessionsToPublicData l1 = sessionsToPublicData l2 /\
  map sessionToPublicData l1 = map sessionToPublicData l2 /\
  sessionsToPublicData l1 = map sessionToPublicData l1 /\
  (forall s, sessionToPublicData s =
     {| pub_address := address s; pub_provider := provider s; pub_sub := sub s;
        pub_aud := aud s; pub_maxEpoch := maxEpoch s; pub_createdAt := createdAt s |}).
Proof.
  assert (E : forall l, sessionsToPublicData l = map sessionToPublicData l) by reflexivity.
  assert (P : map sessionToPublicData l1 = map sessionToPublicData l2).
  { induction H as [|s1 s2 l1 l2 Hs _ IH]; [reflexivity|].
    cbn. rewrite IH. f_equal.
    destruct Hs as (A & B & C & D & F & G). unfold sessionToPublicData.
    rewrite A, B, C, D, F, G. reflexivity. }
  split; [rewrite !E; exact P|]. split; [exact P|]. split; [apply E|].
  reflexivity.
Qed.

Lemma public_projection_hides_secrets_witness :
  let mk k := {| address := "0xa"; provider := twitch; sub := "u1"; aud := "clientA";
                 maxEpoch := 7; createdAt := 100; salt := k; randomness := k; jwt := k;
                 proof := {| proofPoints := Json.JNull; issBase64Details := Json.JNull;
                             headerBase64 := Json.JNull; addressSeed := None |};
                 ephemeralPrivateKey := k |} in
  Forall2 public_agree [mk "1"%string] [mk "2"%string] /\
  sessionsToPublicData [mk "1"%string] = sessionsToPublicData [mk "2"%string].
Proof.
  intros mk.
  assert (H : Forall2 public_agree [mk "1"%string] [mk "2"%string]).
  { constructor; [|constructor]. repeat split. }
  split; [exact H|]. apply (public_projection_hides_secrets _ _ H).
Defined.

End ProjectionProofs.

(** ** Missing session *)

Module SessionProofs.
Import Types Tx Background.

(** C5: for an address with no session in the store, [signAndExecute]
    returns the failure envelope carrying the session-absence message, and
    the worker state (session region, coin reads, external calls) is left
    as it was. *)
Theorem signAndExecute_no_session (addr : string) (payload : SerializedTransactionRequest)
  (env : Env) (w : World) (H : Forall (fun s => address s <> addr) (w_sessions w)) :
  signAndExecute addr payload env w =
    (inr {| resp_type := "SIGN_AND_EXECUTE"%string; resp_ok := false; resp_data := None;
            resp_error := Some "No active session for this address. Ask the user to log in again."%string |},
     w).
Proof.
  assert (F : find_session addr (w_sessions w) = None).
  { unfold find_session. induction H as [|s l Hs _ IH]; [reflexivity|].
    cbn. destruct (String.eqb_spec (address s) addr); [contradiction | exact IH]. }
  assert (G : getSessionOrThrow addr env w = (inl NO_SESSION_MSG, w)).
  { unfold getSessionOrThrow, bind, getAccountSessions. cbv beta iota. rewrite F. reflexivity. }
  unfold signAndExecute, catch, bind. rewrite G. reflexivity.
Qed.

Lemma signAndExecute_no_session_witness :
  let w := {| w_sessions := []; w_reads := 0; w_trace := [] |} in
  let env := {| env_balance := fun _ => None; env_coins := fun _ => [];
                env_faucet_ok := true; env_key_ok := fun _ => true;
                env_submit := fun _ _ => inr "d"%string; env_tx_from := fun _ => None |} in
  let p := {| kind := custom; amount := None; recipient := None; bytes := Some "AA"%string |} in
  Forall (fun s => address s <> "0xa"%string) (w_sessions w) /\
  resp_ok (match fst (signAndExecute "0xa"%string p env w) with
           | inr r => r | inl _ => {| resp_type := ""; resp_ok := true; resp_data := None;
                                      resp_error := None |} end) = false.
Proof.
  intros w env p. assert (H : Forall (fun s => address s <> "0xa"%string) (w_sessions w)).
  { constructor. }
  split; [exact H|]. rewrite (signAndExecute_no_session "0xa"%string p env w H). reflexivity.
Defined.

End SessionProofs.

(** ** Gas provisioning *)

Module GasProofs.
Import Types Tx Background Ref.

(** *** Monad steps *)

Lemma bind_inr {A B} (m : M A) (k : A -> M B) env w a w' :
  m env w = (inr a, w') -> bind m k env w = k a env w'.
Proof. intros H. unfold bind. rewrite H. reflexivity. Qed.

Lemma bind_inl {A B} (m : M A) (k : A -> M B) env w e w' :
  m env w = (inl e, w') -> bind m k env w = (inl e, w').
Proof. intros H. unfold bind. rewrite H. reflexivity. Qed.

Lemma collect_eq a env w :
  collectSpendableCoins a env w =
    (inr (read_state env (w_reads w)),
     {| w_sessions := w_sessions w; w_reads := S (w_reads w);
        w_trace := w_trace w ++ [EvCollect a] |}).
Proof. reflexivity. Qed.

Lemma sleep_eq d env w : sleep d env w = (inr tt, emit (EvSleep d) w).
Proof. reflexivity. Qed.

(** *** The stable descending sort *)

Lemma insert_desc_perm c l : Permutation (insert_desc c l) (c :: l).
Proof.
  induction l as [|y l IH]; cbn; [reflexivity|].
  destruct (coin_bal y <? coin_bal c); [reflexivity|].
  rewrite IH. apply perm_swap.
Qed.

Lemma sort_desc_perm l : Permutation (sort_desc l) l.
Proof.
  unfold sort_desc.
  assert (G : forall acc, Permutation (fold_left (fun acc c => insert_desc c acc) l acc) (l ++ acc)).
  { induction l as [|x l IH]; intros acc; cbn; [reflexivity|].
    rewrite IH, insert_desc_perm. apply Permutation_sym, Permutation_middle. }
  rewrite G, app_nil_r. reflexivity.
Qed.

Lemma insert_desc_sorted c l :
  StronglySorted bal_ge l -> StronglySorted bal_ge (insert_desc c l).
Proof.
  induction 1 as [|y l Hl IH Hy]; cbn.
  - repeat constructor.
  - destruct (Z.ltb_spec (coin_bal y) (coin_bal c)) as [Hlt|Hge].
    + constructor; [constructor; assumption|].
      constructor; [unfold bal_ge; lia|].
      eapply Forall_impl; [|exact Hy]. unfold bal_ge. intros z Hz. lia.
    + constructor; [exact IH|].
      eapply Permutation_Forall; [symmetry; apply insert_desc_perm|].
      constructor; [unfold bal_ge; lia | exact Hy].
Qed.

Lemma sort_desc_sorted l : StronglySorted bal_ge (sort_desc l).
Proof.
  unfold sort_desc.
  assert (G : forall acc, StronglySorted bal_ge acc ->
                StronglySorted bal_ge (fold_left (fun acc c => insert_desc c acc) l acc)).
  { induction l as [|x l IH]; intros acc H; cbn; [exact H|].
    apply IH, insert_desc_sorted, H. }
  apply G. constructor.
Qed.

Lemma positive_coins_spec l :
  Forall (fun c => exists b, coin_balance c = Some b /\ 0 < b) (positive_coins l).
Proof.
  apply Forall_forall. intros c Hc. apply filter_In in Hc as [_ Hp].
  destruct (coin_balance c) as [b|]; [|discriminate].
  exists b. split; [reflexivity|]. apply Z.ltb_lt, Hp.
Qed.

Lemma sorted_prefix_largest cs n :
  StronglySorted bal_ge cs ->
  forall c c', In c (firstn n cs) -> In c' (skipn n cs) -> coin_bal c' <= coin_bal c.
Proof.
  revert n. induction cs as [|x cs IH]; intros n Hs c c' Hc Hc'.
  - destruct n; contradiction.
  - destruct n as [|n]; [contradiction|].
    cbn in Hc, Hc'. inversion Hs as [|? ? Hs' Hx]; subst.
    destruct Hc as [<- | Hc].
    + rewrite Forall_forall in Hx. apply Hx.
      rewrite <- (firstn_skipn n cs). apply in_or_app. right. exact Hc'.
    + exact (IH n Hs' c c' Hc Hc').
Qed.

Lemma coinsToObjectRefs_length cs : (List.length (coinsToObjectRefs cs) <= 32)%nat.
Proof. unfold coinsToObjectRefs. rewrite length_map, length_firstn. lia. Qed.

Lemma minimumRequired_max t :
  minimumRequired t = Z.max t 0 + GAS_BUFFER_MIST.
Proof.
  unfold minimumRequired. destruct (Z.ltb_spec 0 t); lia.
Qed.

(** Once the amount has converted, [ensureSuiForTransaction] goes on with
    the first coin read. *)
Lemma ensure_converted session payload t env w (Ht : transferAmountMist payload = inr t) :
  ensureSuiForTransaction session payload env w =
    (state <- collectSpendableCoins (address session) ;;
     if sufficient (minimumRequired t) state then ret (coinsToObjectRefs (coins state))
     else if negb IS_TESTNET then
       throw (if (0 <? t) && (totalBalance state <? t) then MAINNET_TRANSFER_MSG else MAINNET_FEE_MSG)
     else
       _ <- requestFaucetAndWait (address session) ;;
       state' <- collectSpendableCoins (address session) ;;
       if sufficient (minimumRequired t) state' then ret (coinsToObjectRefs (coins state'))
       else throw (if (0 <? t) && (totalBalance state' <? t)
                   then TRANSFER_SHORT_MSG else FEE_SHORT_MSG)) env w.
Proof. unfold ensureSuiForTransaction, bind at 1. rewrite Ht. reflexivity. Qed.

(** C3: for a payload whose amount converts to [t] mist, when the
    aggregate balance of the first read covers
    [max(t, 0) + GAS_BUFFER_MIST] and a spendable coin
    exists, [ensureSuiForTransaction] makes one coin read and no faucet call
    and returns the handles of at most 32 coins, taken from the front of the
    positive-balance coins sorted by descending balance (so no coin left out
    has a larger balance than one returned). *)
Theorem ensureSui_sufficient (session : AccountSession) (payload : SerializedTransactionRequest)
  (env : Env) (w : World) (t : Z)
  (Ht : transferAmountMist payload = inr t)
  (Hmin : Z.max t 0 + GAS_BUFFER_MIST <= totalBalance (read_state env (w_reads w)))
  (Hcoins : coins (read_state env (w_reads w)) <> []) :
  minimumRequired t = Z.max t 0 + GAS_BUFFER_MIST /\
  GAS_BUFFER_MIST = 50000000 /\
  ensureSuiForTransaction session payload env w =
    (inr (coinsToObjectRefs (coins (read_state env (w_reads w)))),
     {| w_sessions := w_sessions w; w_reads := S (w_reads w);
        w_trace := w_trace w ++ [EvCollect (address session)] |}) /\
  coinsToObjectRefs (coins (read_state env (w_reads w))) =
    map (fun c => {| objectId := coinObjectId c; objDigest := coin_digest c;
                     objVersion := coin_version c |})
        (firstn 32 (coins (read_state env (w_reads w)))) /\
  (List.length (coinsToObjectRefs (coins (read_state env (w_reads w)))) <= 32)%nat /\
  Permutation (coins (read_state env (w_reads w))) (positive_coins (env_coins env (w_reads w))) /\
  Forall (fun c => exists b, coin_balance c = Some b /\ 0 < b) (coins (read_state env (w_reads w))) /\
  StronglySorted bal_ge (coins (read_state env (w_reads w))) /\
  (forall c c', In c (firstn 32 (coins (read_state env (w_reads w)))) ->
                In c' (skipn 32 (coins (read_state env (w_reads w)))) ->
                coin_bal c' <= coin_bal c).
Proof.
  assert (Hperm : Permutation (coins (read_state env (w_reads w)))
                              (positive_coins (env_coins env (w_reads w))))
    by apply sort_desc_perm.
  assert (Hsort : StronglySorted bal_ge (coins (read_state env (w_reads w))))
    by apply sort_desc_sorted.
  split; [apply minimumRequired_max|]. split; [reflexivity|]. split.
  - rewrite (ensure_converted session payload t env w Ht).
    rewrite (bind_inr _ _ _ _ _ _ (collect_eq (address session) env w)).
    assert (S1 : sufficient (minimumRequired t) (read_state env (w_reads w)) = true).
    { unfold sufficient. rewrite minimumRequired_max. apply andb_true_iff. split.
      - apply Z.leb_le, Hmin.
      - apply Nat.ltb_lt.
        destruct (coins (read_state env (w_reads w))); [contradiction | cbn; lia]. }
    rewrite S1. reflexivity.
  - split; [reflexivity|]. split; [apply coinsToObjectRefs_length|].
    split; [exact Hperm|]. split.
    + eapply Permutation_Forall; [symmetry; exact Hperm | apply positive_coins_spec].
    + split; [exact Hsort|]. apply sorted_prefix_largest, Hsort.
Qed.

(** *** The polling loop *)

Lemma poll_faucet_spec a ds : forall env w,
  exists n, (n <= List.length ds)%nat /\ (ds <> [] -> (1 <= n)%nat) /\
  poll_faucet a ds env w =
    (inr tt, {| w_sessions := w_sessions w; w_reads := w_reads w + n;
                w_trace := w_trace w ++ poll_trace a (firstn n ds) |}) /\
  (forall i, (i < n - 1)%nat -> coins (read_state env (w_reads w + i)) = []) /\
  (n = List.length ds \/ coins (read_state env (w_reads w + (n - 1))) <> []).
Proof.
  induction ds as [|d ds IH]; intros env w.
  - exists 0%nat. split; [lia|]. split; [congruence|]. split.
    + cbn. destruct w as [ss k tr]. cbn. rewrite Nat.add_0_r, app_nil_r. reflexivity.
    + split; [intros i Hi; lia | left; reflexivity].
  - cbn [poll_faucet].
    rewrite (bind_inr _ _ _ _ _ _ (sleep_eq d env w)).
    rewrite (bind_inr _ _ _ _ _ _ (collect_eq a env (emit (EvSleep d) w))).
    cbn [w_reads w_sessions w_trace emit].
    destruct (Nat.ltb_spec 0 (List.length (coins (read_state env (w_reads w))))) as [Hpos|Hzero].
    + exists 1%nat. split; [cbn; lia|]. split; [lia|]. split.
      * cbn. rewrite Nat.add_1_r, <- app_assoc. reflexivity.
      * split; [intros i Hi; lia|]. right. rewrite Nat.sub_diag, Nat.add_0_r.
        intros E. rewrite E in Hpos. cbn in Hpos. lia.
    + assert (E0 : coins (read_state env (w_reads w)) = []).
      { destruct (coins (read_state env (w_reads w))); [reflexivity | cbn in Hzero; lia]. }
      set (w2 := {| w_sessions := w_sessions w; w_reads := S (w_reads w);
                    w_trace := (w_trace w ++ [EvSleep d]) ++ [EvCollect a] |}).
      destruct (IH env w2) as (n & Hn & Hn1 & Hrun & Hstop & Hlast).
      exists (S n). split; [cbn; lia|]. split; [lia|]. split.
      * rewrite Hrun. cbn. rewrite Nat.add_succ_r, <- !app_assoc. reflexivity.
      * split.
        -- intros [|i] Hi; [rewrite Nat.add_0_r; exact E0|].
           specialize (Hstop i ltac:(lia)). cbn in Hstop.
           rewrite Nat.add_succ_r. exact Hstop.
        -- destruct Hlast as [Hl | Hl]; [left; cbn; lia|].
           destruct ds as [|d' ds']; [left; cbn in Hn |- *; lia|].
           specialize (Hn1 ltac:(congruence)).
           right. cbn in Hl. replace (w_reads w + (S n - 1))%nat with (S (w_reads w + (n - 1)))%nat
             by lia. exact Hl.
Qed.

(** C4: for a payload whose amount converts to [t] mist, when the first
    read falls short and the network is the faucet-enabled
    testnet, [ensureSuiForTransaction] calls the faucet exactly once. If that
    call fails it fails at once with the faucet message, with no poll.
    Otherwise it polls between one and five times, sleeping 700, 1500, 2500,
    4000 and 6000 ms in that order, and stops at the first poll that sees a
    positive-balance coin; one more read then decides the result: the coin
    handles, or the transfer-shortfall message when [0 < t]
    and the balance is below it, the fee-shortfall message otherwise. *)
Theorem ensureSui_faucet (session : AccountSession) (payload : SerializedTransactionRequest)
  (env : Env) (w : World) (t : Z)
  (Ht : transferAmountMist payload = inr t)
  (Hshort : sufficient (minimumRequired t) (read_state env (w_reads w)) = false) :
  IS_TESTNET = true /\
  (env_faucet_ok env = false ->
   ensureSuiForTransaction session payload env w =
     (inl FAUCET_FAILED_MSG,
      {| w_sessions := w_sessions w; w_reads := S (w_reads w);
         w_trace := w_trace w ++ [EvCollect (address session); EvFaucet (address session)] |})) /\
  (env_faucet_ok env = true ->
   exists n, (1 <= n <= 5)%nat /\
   w_trace (snd (ensureSuiForTransaction session payload env w)) =
     w_trace w ++ [EvCollect (address session); EvFaucet (address session)]
       ++ poll_trace (address session) (firstn n FAUCET_RETRY_DELAYS_MS)
       ++ [EvCollect (address session)] /\
   (forall i, (i < n - 1)%nat -> coins (read_state env (S (w_reads w) + i)) = []) /\
   (n = 5%nat \/ coins (read_state env (S (w_reads w) + (n - 1))) <> []) /\
   fst (ensureSuiForTransaction session payload env w) =
     (if sufficient (minimumRequired t) (read_state env (S (w_reads w) + n))
      then inr (coinsToObjectRefs (coins (read_state env (S (w_reads w) + n))))
      else inl (if (0 <? t)
                   && (totalBalance (read_state env (S (w_reads w) + n)) <? t)
                then TRANSFER_SHORT_MSG else FEE_SHORT_MSG))).
Proof.
  set (a := address session).
  set (w1 := {| w_sessions := w_sessions w; w_reads := S (w_reads w);
                w_trace := w_trace w ++ [EvCollect a] |}).
  assert (Step1 : ensureSuiForTransaction session payload env w =
     (_ <- requestFaucetAndWait a ;;
      state' <- collectSpendableCoins a ;;
      if sufficient (minimumRequired t) state'
      then ret (coinsToObjectRefs (coins state'))
      else throw (if (0 <? t)
                     && (totalBalance state' <? t)
                  then TRANSFER_SHORT_MSG else FEE_SHORT_MSG)) env w1).
  { rewrite (ensure_converted session payload t env w Ht).
    rewrite (bind_inr _ _ _ _ _ _ (collect_eq a env w)). fold w1.
    rewrite Hshort. reflexivity. }
  split; [reflexivity|]. split.
  - intros Hf. rewrite Step1.
    apply bind_inl. unfold requestFaucetAndWait.
    apply bind_inl. unfold catch, requestSuiFromFaucetV2. rewrite Hf.
    unfold throw, emit, w1. cbn. rewrite <- app_assoc. reflexivity.
  - intros Hf.
    set (w2 := emit (EvFaucet a) w1).
    assert (F : catch (requestSuiFromFaucetV2 a) (fun _ => throw FAUCET_FAILED_MSG) env w1
                = (inr tt, w2)).
    { unfold catch, requestSuiFromFaucetV2. rewrite Hf. reflexivity. }
    destruct (poll_faucet_spec a FAUCET_RETRY_DELAYS_MS env w2)
      as (n & Hn & Hn1 & Hrun & Hstop & Hlast).
    specialize (Hn1 ltac:(discriminate)). cbn [List.length FAUCET_RETRY_DELAYS_MS] in Hn.
    set (w3 := {| w_sessions := w_sessions w2; w_reads := w_reads w2 + n;
                  w_trace := w_trace w2 ++ poll_trace a (firstn n FAUCET_RETRY_DELAYS_MS) |}) in Hrun.
    assert (R : requestFaucetAndWait a env w1 = (inr tt, w3)).
    { unfold requestFaucetAndWait. rewrite (bind_inr _ _ _ _ _ _ F). exact Hrun. }
    rewrite Step1, (bind_inr _ _ _ _ _ _ R), (bind_inr _ _ _ _ _ _ (collect_eq a env w3)).
    exists n. split; [lia|].
    assert (Hk : w_reads w3 = (S (w_reads w) + n)%nat) by reflexivity.
    rewrite Hk. cbn [Nat.add].
    split; [|split; [|split]].
    + destruct (sufficient (minimumRequired t) (read_state env (S (w_reads w + n))));
        cbn; rewrite <- !app_assoc; reflexivity.
    + exact Hstop.
    + destruct Hlast as [Hl | Hl]; [left; exact Hl | right; exact Hl].
    + destruct (sufficient (minimumRequired t) (read_state env (S (w_reads w + n))));
        reflexivity.
Qed.

Lemma ensureSui_sufficient_witness :
  let env := Samples.sample_env (fun _ => [Samples.sample_coin "c1" 5000000000]) true in
  transferAmountMist Samples.sample_transfer = inr 1500000000 /\
  Z.max 1500000000 0 + GAS_BUFFER_MIST <= totalBalance (read_state env (w_reads Samples.sample_world)) /\
  coins (read_state env (w_reads Samples.sample_world)) <> [] /\
  (List.length (coinsToObjectRefs (coins (read_state env (w_reads Samples.sample_world)))) <= 32)%nat.
Proof.
  intros env.
  assert (H0 : transferAmountMist Samples.sample_transfer = inr 1500000000).
  { vm_compute. reflexivity. }
  assert (H1 : Z.max 1500000000 0 + GAS_BUFFER_MIST
               <= totalBalance (read_state env (w_reads Samples.sample_world))).
  { apply Z.leb_le. vm_compute. reflexivity. }
  assert (H2 : coins (read_state env (w_reads Samples.sample_world)) <> []).
  { vm_compute. discriminate. }
  split; [exact H0|]. split; [exact H1|]. split; [exact H2|].
  apply (ensureSui_sufficient Samples.sample_session Samples.sample_transfer env
           Samples.sample_world 1500000000 H0 H1 H2).
Defined.

Lemma ensureSui_faucet_witness :
  let env := Samples.sample_env (fun k => if Nat.leb k 2 then [] else
                                          [Samples.sample_coin "c1" 5000000000]) true in
  transferAmountMist Samples.sample_transfer = inr 1500000000 /\
  sufficient (minimumRequired 1500000000)
             (read_state env (w_reads Samples.sample_world)) = false /\
  IS_TESTNET = true.
Proof.
  intros env.
  assert (H0 : transferAmountMist Samples.sample_transfer = inr 1500000000).
  { vm_compute. reflexivity. }
  assert (H : sufficient (minimumRequired 1500000000)
                         (read_state env (w_reads Samples.sample_world)) = false).
  { vm_compute. reflexivity. }
  split; [exact H0|]. split; [exact H|].
  apply (ensureSui_faucet Samples.sample_session Samples.sample_transfer env
           Samples.sample_world 1500000000 H0 H).
Defined.

End GasProofs.

(** ** Proof requestor *)

Module ProverProofs.
Import Num Json Types Prover Ref.
Local Open Scope string_scope.

Lemma decimal_nonempty z : decimal z <> "".
Proof.
  unfold decimal. destruct (Z.to_int z) as [d|d]; cbn; [destruct d | ]; discriminate.
Qed.

Lemma app_nonempty_l a b : a <> "" -> a ++ b <> "".
Proof. destruct a; [contradiction | discriminate]. Qed.

Lemma app_nonempty_r a b : b <> "" -> a ++ b <> "".
Proof. destruct a; [exact (fun H => H) | discriminate]. Qed.

Lemma format_digits_nonempty s n : format_digits s n <> "".
Proof.
  unfold format_digits. cbv zeta.
  destruct ((ndigits s <=? n)%Z && (n <=? 21)%Z); [apply app_nonempty_l, decimal_nonempty|].
  destruct ((0 <? n)%Z && (n <=? 21)%Z); [apply app_nonempty_r; discriminate|].
  destruct ((-6 <? n)%Z && (n <=? 0)%Z); [discriminate|].
  destruct (ndigits s =? 1)%Z; [apply app_nonempty_l, decimal_nonempty|].
  apply app_nonempty_r; discriminate.
Qed.

Lemma number_to_string_nonempty q : number_to_string q <> "".
Proof.
  unfold number_to_string. destruct (Z.abs (Qnum q) =? 0)%Z; [discriminate|].
  destruct (shortest _ _) as [s0 e0]. destruct (strip_zeros _ _ _) as [s e].
  apply app_nonempty_r, format_digits_nonempty.
Qed.

Lemma fetchZkProof_top url st tx r :
  is_http_url url = true -> holds_proof_fields (JObj r) = true ->
  fetchZkProof url (ok_reply st tx (JObj r)) = after_src (JObj r).
Proof.
  intros Hu Hf. unfold fetchZkProof, ok_reply. rewrite Hu. cbn [negb orb http_ok http_json truthy is_object].
  unfold holds_proof_fields in Hf. rewrite Hf. unfold after_src.
  destruct (get (JObj r) "addressSeed") as [[| | z | s | |]|]; cbn; try reflexivity.
  - destruct (number_to_string z) eqn:E; [exfalso; exact (number_to_string_nonempty z E)|].
    reflexivity.
  - destruct (String.eqb s ""); reflexivity.
Qed.

Lemma fetchZkProof_nested url st tx r :
  is_http_url url = true -> holds_proof_fields (JObj r) = true ->
  fetchZkProof url (ok_reply st tx (JObj [("data", JObj r)])) = after_src (JObj r).
Proof.
  intros Hu Hf. unfold fetchZkProof, ok_reply. rewrite Hu. cbn.
  unfold holds_proof_fields in Hf. cbn in Hf. rewrite Hf. unfold after_src.
  cbn [get]. destruct (assoc "addressSeed" r) as [[| | z | s | |]|]; cbn; try reflexivity.
  - destruct (number_to_string z) eqn:E; [exfalso; exact (number_to_string_nonempty z E)|].
    reflexivity.
  - destruct (String.eqb s ""); reflexivity.
Qed.

Lemma fetchZkProof_missing_fields url st tx kvs :
  is_http_url url = true -> holds_proof_fields (JObj kvs) = false ->
  (forall d, assoc "data" kvs = Some d -> holds_proof_fields d = false) ->
  fetchZkProof url (ok_reply st tx (JObj kvs)) =
    inl ("Invalid proof response: missing fields. Keys present: " ++ join ", " (map fst kvs)).
Proof.
  intros Hu Hf Hd. unfold fetchZkProof, ok_reply. rewrite Hu.
  cbn [negb orb http_ok http_json truthy is_object].
  unfold holds_proof_fields in Hf. rewrite Hf.
  change (get (JObj kvs) "data") with (assoc "data" kvs).
  destruct (assoc "data" kvs) as [d|] eqn:E; [|reflexivity].
  specialize (Hd d eq_refl). unfold holds_proof_fields in Hd.
  destruct (is_object (Some d) && truthy (Some d)); [rewrite Hd|]; reflexivity.
Qed.

(** C7: a response object [r] holding the three proof fields gives the same
    result at the top level and wrapped as [{data: r}]; a response object in
    which neither the top level nor the [data] value holds the three fields
    fails with the missing-fields error listing the top-level keys. *)
Theorem fetchZkProof_data_unwrap (url : string) (st : Z) (tx : string)
  (r : list (string * Json)) (Hu : is_http_url url = true)
  (Hf : holds_proof_fields (JObj r) = true) :
  fetchZkProof url (ok_reply st tx (JObj r)) =
    fetchZkProof url (ok_reply st tx (JObj [("data", JObj r)])) /\
  (forall kvs, holds_proof_fields (JObj kvs) = false ->
     (forall d, assoc "data" kvs = Some d -> holds_proof_fields d = false) ->
     fetchZkProof url (ok_reply st tx (JObj kvs)) =
       inl ("Invalid proof response: missing fields. Keys present: "
            ++ join ", " (map fst kvs))).
Proof.
  split.
  - rewrite (fetchZkProof_top url st tx r Hu Hf), (fetchZkProof_nested url st tx r Hu Hf).
    reflexivity.
  - intros kvs Hk Hd. exact (fetchZkProof_missing_fields url st tx kvs Hu Hk Hd).
Qed.

Lemma fetchZkProof_data_unwrap_witness :
  is_http_url "https://prover-dev.mystenlabs.com/v1" = true /\
  holds_proof_fields (JObj Samples.sample_fields) = true /\
  (fetchZkProof "https://prover-dev.mystenlabs.com/v1" (ok_reply 200 "ok" (JObj Samples.sample_fields)) =
     fetchZkProof "https://prover-dev.mystenlabs.com/v1"
       (ok_reply 200 "ok" (JObj [("data", JObj Samples.sample_fields)])) /\
   (forall kvs, holds_proof_fields (JObj kvs) = false ->
     (forall d, assoc "data" kvs = Some d -> holds_proof_fields d = false) ->
     fetchZkProof "https://prover-dev.mystenlabs.com/v1" (ok_reply 200 "ok" (JObj kvs)) =
       inl ("Invalid proof response: missing fields. Keys present: "
            ++ join ", " (map fst kvs)))).
Proof.
  split; [vm_compute; reflexivity|]. split; [vm_compute; reflexivity|].
  apply (fetchZkProof_data_unwrap "https://prover-dev.mystenlabs.com/v1" 200 "ok"
           Samples.sample_fields); vm_compute; reflexivity.
Defined.

(** C6 (code_bug): the requestor does not do what the specification
    asks of it. A response holding the three proof fields and no
    [addressSeed] makes it fail with the missing-seed error, where the
    specification has the request succeed and the seed computed later
    ([startTwitchLogin] and [executeTransactionWithSession] do hold a
    [?? genAddressSeed(...)] fallback for a proof without a seed). And a
    numeric seed is printed by [Number.prototype.toString], not as the
    decimal string of the integer sent: [10^21] comes back as [1e+21], and
    the literal [12345678901234567890] is read as the double
    [12345678901234567168] and comes back as [12345678901234567000]. *)
Theorem fetchZkProof_seed_divergence :
  fetchZkProof "https://prover-dev.mystenlabs.com/v1" (ok_reply 200 "ok" (JObj Samples.sample_fields)) =
    inl "Invalid proof response: missing addressSeed. Keys present: proofPoints, issBase64Details, headerBase64" /\
  round_Q (inject_Z (10 ^ 21)) = JFinite (inject_Z (10 ^ 21)) /\
  fetchZkProof "https://prover-dev.mystenlabs.com/v1"
    (ok_reply 200 "ok" (JObj (("addressSeed", JNum (inject_Z (10 ^ 21))) :: Samples.sample_fields))) =
    inr (blob_of (JObj (("addressSeed", JNum (inject_Z (10 ^ 21))) :: Samples.sample_fields)) "1e+21") /\
  round_Q (inject_Z 12345678901234567890) = JFinite (inject_Z 12345678901234567168) /\
  fetchZkProof "https://prover-dev.mystenlabs.com/v1"
    (ok_reply 200 "ok"
       (JObj (("addressSeed", JNum (inject_Z 12345678901234567168)) :: Samples.sample_fields))) =
    inr (blob_of (JObj (("addressSeed", JNum (inject_Z 12345678901234567168)) :: Samples.sample_fields))
           "12345678901234567000").
Proof.
  split; [vm_compute; reflexivity|]. split; [vm_compute; reflexivity|].
  split; [vm_compute; reflexivity|]. split; vm_compute; reflexivity.
Qed.

End ProverProofs.

(* ------------------------------------------------------------------------- *)
(** ** Transfer transactions *)

Module TxProofs.
Import Num Tx.
Local Open Scope string_scope.

Lemma buildTransaction_no_amount fe sender r b :
  buildTransaction fe sender (transfer_req None r b) = inl REQUIRES_MSG.
Proof. reflexivity. Qed.

Lemma buildTransaction_no_recipient fe sender x b :
  buildTransaction fe sender (transfer_req (Some x) None b) = inl REQUIRES_MSG.
Proof. reflexivity. Qed.

Lemma buildTransaction_empty_recipient fe sender x b :
  buildTransaction fe sender (transfer_req (Some x) (Some "") b) = inl REQUIRES_MSG.
Proof. reflexivity. Qed.

(** *** Address validity *)

Lemma pad_zeros_length k s : String.length (pad_zeros k s) = (k + String.length s)%nat.
Proof. induction k as [|k IH]; cbn; [reflexivity | rewrite IH; reflexivity]. Qed.

Lemma all_hex_pad k s : all_hex (pad_zeros k s) = all_hex s.
Proof. induction k as [|k IH]; cbn; [reflexivity | exact IH]. Qed.

Lemma substring_all s : substring 0 (String.length s) s = s.
Proof. induction s as [|c s IH]; cbn; [reflexivity | rewrite IH; reflexivity]. Qed.

Lemma drop2_0x s : drop2 ("0x" ++ s) = s.
Proof.
  unfold drop2. cbn [String.append String.length substring].
  replace (S (S (String.length s)) - 2)%nat with (String.length s) by lia.
  apply substring_all.
Qed.

Lemma has_0x_app s : has_0x ("0x" ++ s) = true.
Proof. unfold has_0x. destruct s; reflexivity. Qed.

Lemma even_half_32 (L : nat) : (65 <= L)%nat -> Nat.even L && Nat.eqb (Nat.div L 2) 32 = false.
Proof.
  intros HL. destruct (Nat.eqb_spec (Nat.div L 2) 32) as [E|E]; [|apply andb_false_r].
  assert (Hm := Nat.div_mod_eq L 2). assert (Hb := Nat.mod_upper_bound L 2 ltac:(lia)).
  rewrite E in Hm. assert (L = 65)%nat by lia. subst L. reflexivity.
Qed.

(** [tx.pure.address(r)] accepts exactly the recipients that are at most 64
    hex digits once lower-cased and stripped of one leading [0x]. *)
Lemma valid_address_iff (r : string) :
  let a := lower r in
  let body := if String.prefix "0x" a then drop2 a else a in
  isValidSuiAddress (normalizeSuiAddress r) = all_hex body && Nat.leb (String.length body) 64.
Proof.
  cbv zeta. unfold normalizeSuiAddress. cbv zeta.
  set (body := if String.prefix "0x" (lower r) then drop2 (lower r) else lower r).
  unfold isValidSuiAddress, isHex, getHexByteLength. rewrite !has_0x_app, drop2_0x.
  unfold pad_start_64. rewrite all_hex_pad.
  assert (Hl : String.length (pad_zeros (64 - String.length body) body) =
               Nat.max 64 (String.length body)) by (rewrite pad_zeros_length; lia).
  assert (Hne : String.eqb (pad_zeros (64 - String.length body) body) "" = false).
  { destruct (String.eqb_spec (pad_zeros (64 - String.length body) body) "") as [E|E];
      [|reflexivity].
    apply (f_equal String.length) in E. rewrite Hl in E. cbn [String.length] in E. lia. }
  rewrite Hne. cbn [negb andb String.length String.append].
  replace (S (S (String.length (pad_zeros (64 - String.length body) body))) - 2)%nat
    with (String.length (pad_zeros (64 - String.length body) body)) by lia.
  rewrite Hl. cbn [Nat.even].
  destruct (Nat.leb_spec (String.length body) 64) as [Hle|Hgt].
  - replace (Nat.max 64 (String.length body)) with 64%nat by lia.
    destruct (all_hex body); reflexivity.
  - replace (Nat.max 64 (String.length body)) with (String.length body) by lia.
    rewrite <- andb_assoc, even_half_32 by lia. reflexivity.
Qed.

Lemma pure_u64_pos v : (0 < v)%Z ->
  pure_u64 v = if (U64_MAX <? v)%Z then
                 inl ("Invalid u64 value: " ++ decimal v ++ ". Expected value in range 0-" ++ decimal U64_MAX)
               else inr v.
Proof. intros H. unfold pure_u64. replace (v <? 0)%Z with false by lia. reflexivity. Qed.

(** *** [toMist] *)

Lemma toMist_finite q :
  toMist (JFinite q) =
    match round_Q (q * 1000000000)%Q with
    | JFinite v => inr (Qfloor v)
    | JPosInf => inl (bigint_error "Infinity")
    | JNegInf => inl (bigint_error "-Infinity")
    | JNaN => inl (bigint_error "NaN")
    end.
Proof.
  unfold toMist, js_mul. destruct (round_Q _) as [v| | |]; cbn [js_floor to_bigint]; try reflexivity.
  rewrite Qfloor_Z.
  replace (Qeq_bool _ _) with true by (symmetry; apply Qeq_bool_iff; reflexivity).
  reflexivity.
Qed.

Lemma toMist_nonfinite :
  toMist JNaN = inl (bigint_error "NaN") /\ toMist JPosInf = inl (bigint_error "Infinity") /\
  toMist JNegInf = inl (bigint_error "-Infinity").
Proof. repeat split. Qed.

(** C9 (counterexample): the builder accepts amounts that are not whole
    numbers of mist and rounds them down (1 + 2^-31 SUI gives 10^9 mist);
    the double product can lose a mist (the amount 1.005, a whole
    1_005_000_000 mist, gives 1_004_999_999); a positive amount whose
    product is not finite (1e300) fails with [BigInt]'s RangeError; an
    amount above [2^64 - 1] mist (2 * 10^10 SUI) fails the builder's u64
    check; a recipient that is not an address fails the address check. *)
Lemma buildTransaction_drops_fraction :
  let fe := fun _ : string => None in
  buildTransaction fe "0xa" (transfer_req (Some (JFinite (2147483649 # 2147483648))) (Some "0xb") None) =
    inr {| tx_body := Built "0xa" [SplitCoins GasCoin [1000000000%Z];
                                   TransferObjects [NestedResult 0 0] (PureAddress "0xb")];
           tx_gasPayment := [] |} /\
  (inject_Z 1000000000 < (2147483649 # 2147483648) * inject_Z 1000000000)%Q /\
  rounds_to (1005 # 1000) (1131529406376837 # 1125899906842624) = true /\
  buildTransaction fe "0xa"
    (transfer_req (Some (JFinite (1131529406376837 # 1125899906842624))) (Some "0xb") None) =
    inr {| tx_body := Built "0xa" [SplitCoins GasCoin [1004999999%Z];
                                   TransferObjects [NestedResult 0 0] (PureAddress "0xb")];
           tx_gasPayment := [] |} /\
  match round_Q (inject_Z (10 ^ 300)) with
  | JFinite v => buildTransaction fe "0xa" (transfer_req (Some (JFinite v)) (Some "0xb") None) =
                   inl (bigint_error "Infinity")
  | _ => False
  end /\
  buildTransaction fe "0xa" (transfer_req (Some (JFinite (inject_Z 20000000000))) (Some "0xb") None) =
    inl "Invalid u64 value: 20000000000000000000. Expected value in range 0-18446744073709551615" /\
  buildTransaction fe "0xa" (transfer_req (Some (JFinite 1)) (Some "not-an-address") None) =
    inl "Invalid Sui address not-an-address".
Proof.
  cbv zeta. split; [vm_compute; reflexivity|]. split; [unfold Qlt; vm_compute; reflexivity|].
  split; [vm_compute; reflexivity|]. split; [vm_compute; reflexivity|].
  split; [vm_compute; reflexivity|].
  split; vm_compute; reflexivity.
Qed.

(** C9 (amended): for the transfer intent the builder rejects a missing
    amount and a missing or empty recipient. Otherwise it converts the
    amount [x] with [toMist x]: the product [x * 10^9] rounded to a double,
    then its floor, so a fraction of a mist is dropped; a product that is
    not finite (NaN, or beyond the double range) makes [BigInt] throw its
    RangeError. A converted amount that is not positive is rejected; the
    builder library then rejects an amount above [2^64 - 1] mist and a
    recipient that is not, once lower-cased and stripped of one leading
    [0x], a string of at most 64 hex digits. Otherwise the result is a
    transaction from [sender] that splits exactly the converted amount from
    the gas coin and transfers it to the recipient. *)
Theorem buildTransaction_transfer (fe : string -> option string) (sender : string)
  (x : JsNumber) (r : string) (b : option string) (Hr : r <> "") :
  let a := lower r in
  let body := if String.prefix "0x" a then drop2 a else a in
  buildTransaction fe sender (transfer_req (Some x) (Some r) b) =
    match toMist x with
    | inl e => inl e
    | inr amt =>
        if (amt <=? 0)%Z then inl "Transfer amount must be greater than zero."
        else if (U64_MAX <? amt)%Z then
          inl ("Invalid u64 value: " ++ decimal amt ++ ". Expected value in range 0-"
               ++ decimal U64_MAX)
        else if all_hex body && Nat.leb (String.length body) 64 then
          inr {| tx_body := Built sender [SplitCoins GasCoin [amt];
                                          TransferObjects [NestedResult 0 0] (PureAddress r)];
                 tx_gasPayment := [] |}
        else inl ("Invalid Sui address " ++ r)
    end /\
  (forall q, toMist (JFinite q) =
     match round_Q (q * 1000000000)%Q with
     | JFinite v => inr (Qfloor v)
     | JPosInf => inl (bigint_error "Infinity")
     | JNegInf => inl (bigint_error "-Infinity")
     | JNaN => inl (bigint_error "NaN")
     end) /\
  toMist JNaN = inl (bigint_error "NaN") /\ toMist JPosInf = inl (bigint_error "Infinity") /\
  toMist JNegInf = inl (bigint_error "-Infinity") /\
  (forall r' b', buildTransaction fe sender (transfer_req None r' b') = inl REQUIRES_MSG) /\
  (forall b', buildTransaction fe sender (transfer_req (Some x) None b') = inl REQUIRES_MSG) /\
  (forall b', buildTransaction fe sender (transfer_req (Some x) (Some "") b') = inl REQUIRES_MSG).
Proof.
  cbv zeta. split; [|split; [apply toMist_finite|split; [|split; [|split; [|split; [|split]]]]]].
  - unfold buildTransaction, transfer_req. cbn [kind amount recipient nonempty].
    destruct (String.eqb r "") eqn:E; [apply String.eqb_eq in E; contradiction|].
    cbn [negb]. fold (toMist x). destruct (toMist x) as [e|amt]; [reflexivity|].
    destruct (Z.leb_spec amt 0) as [Hle|Hgt]; [reflexivity|].
    rewrite (pure_u64_pos amt Hgt). destruct (U64_MAX <? amt)%Z; [reflexivity|].
    unfold pure_address. rewrite E. cbn [orb]. rewrite valid_address_iff. cbv zeta.
    destruct (all_hex _ && _); reflexivity.
  - reflexivity.
  - reflexivity.
  - reflexivity.
  - intros r' b'. apply buildTransaction_no_amount.
  - intros b'. apply buildTransaction_no_recipient.
  - intros b'. apply buildTransaction_empty_recipient.
Qed.

Lemma buildTransaction_transfer_witness :
  "0xb" <> "" /\
  buildTransaction (fun _ => None) "0xa" (transfer_req (Some (JFinite (3 # 2))) (Some "0xb") None) =
    inr {| tx_body := Built "0xa" [SplitCoins GasCoin [1500000000%Z];
                                   TransferObjects [NestedResult 0 0] (PureAddress "0xb")];
           tx_gasPayment := [] |}.
Proof.
  split; [discriminate|].
  rewrite (proj1 (buildTransaction_transfer (fun _ => None) "0xa" (JFinite (3 # 2)) "0xb" None
                    ltac:(discriminate))).
  vm_compute. reflexivity.
Defined.

End TxProofs.

(* ========================================================================= *)
(** * Further properties of the code *)

(** ** Field reduction on any integer *)

Module FieldExtra.
Import Field.

(** [normalizeToField] never returns 0 and stays strictly inside
    (-M, M); because BigInt [%] keeps the sign of the dividend, a negative
    input that is not a multiple of M gives a negative result. *)
Theorem normalizeToField_negative (x : Z) :
  normalizeToField x <> 0 /\
  - FIELD_MODULUS_BN254 < normalizeToField x < FIELD_MODULUS_BN254 /\
  (x < 0 ->
   normalizeToField x =
     (if (- x) mod FIELD_MODULUS_BN254 =? 0 then 1
      else - ((- x) mod FIELD_MODULUS_BN254))).
Proof.
  unfold normalizeToField.
  assert (HM : 1 < FIELD_MODULUS_BN254) by (unfold FIELD_MODULUS_BN254; lia).
  set (M := FIELD_MODULUS_BN254) in *.
  pose proof (Z.rem_bound_abs x M ltac:(lia)) as B.
  rewrite (Z.abs_eq M) in B by lia.
  split; [|split].
  - destruct (Z.rem x M =? 0) eqn:E; [discriminate|]. apply Z.eqb_neq, E.
  - destruct (Z.rem x M =? 0) eqn:E; [lia|]. apply Z.abs_lt in B. lia.
  - intros Hx.
    assert (R : Z.rem x M = - ((- x) mod M)).
    { replace x with (- (- x)) at 1 by ring.
      rewrite Z.rem_opp_l by lia. rewrite Z.rem_mod_nonneg by lia. reflexivity. }
    rewrite R.
    destruct ((- x) mod M =? 0) eqn:E.
    + apply Z.eqb_eq in E. rewrite E. reflexivity.
    + apply Z.eqb_neq in E. destruct (- ((- x) mod M) =? 0) eqn:E2; [|reflexivity].
      apply Z.eqb_eq in E2. lia.
Qed.

End FieldExtra.

(** ** Base64 decoding: what it accepts and what it refuses *)

Module EncodingExtra.
Import Encoding EncodingProofs.

Lemma uint8ToBase64_bytes b : Forall is_byte b -> uint8ToBase64 b = Some (b64_encode b).
Proof.
  intros Hb. unfold uint8ToBase64, btoa.
  assert (Hid : map fromCharCode b = b).
  { induction Hb as [|x l Hx _ IH]; [reflexivity|].
    cbn. rewrite IH. unfold fromCharCode, is_byte in *. rewrite Z.mod_small; [reflexivity|].
    change (2^16) with 65536. lia. }
  rewrite Hid.
  replace (forallb (fun c => (0 <=? c) && (c <=? 255)) b) with true; [reflexivity|].
  symmetry. apply forallb_forall. intros x Hx. rewrite Forall_forall in Hb.
  specialize (Hb x Hx). unfold is_byte in Hb. apply andb_true_iff; split; lia.
Qed.

Lemma bytes_mod256 b : Forall is_byte b -> map (fun c => c mod 256) b = b.
Proof.
  induction 1 as [|x l Hx _ IH]; [reflexivity|].
  cbn. rewrite IH. unfold is_byte in Hx. rewrite Z.mod_small by lia. reflexivity.
Qed.

Lemma filter_twice (f : Z -> bool) l : filter f (filter f l) = filter f l.
Proof.
  induction l as [|x l IH]; [reflexivity|].
  cbn. destruct (f x) eqn:E; cbn; [rewrite E, IH|]; auto.
Qed.

Lemma atob_filter s :
  atob s = atob (filter (fun c => negb (is_ascii_whitespace c)) s).
Proof. unfold atob. rewrite filter_twice. reflexivity. Qed.

Lemma atob_unpadded bs : Forall is_byte bs -> atob (map b64_char (b64_sextets bs)) = Some bs.
Proof.
  intros H. destruct (b64_sextets_ok bs H) as [HR HD].
  destruct (b64_lengths bs) as (_ & L2 & _ & _).
  unfold atob.
  pose proof (filter_encoded _ [] HR (or_introl eq_refl)) as F. rewrite app_nil_r in F.
  rewrite F.
  pose proof (strip_padding_encoded _ [] HR (or_introl eq_refl)) as SP.
  rewrite app_nil_r in SP. specialize (SP (fun N => ltac:(contradiction))).
  assert (E : (if Nat.eqb (Nat.modulo (List.length (map b64_char (b64_sextets bs))) 4) 0
               then strip_padding (map b64_char (b64_sextets bs))
               else map b64_char (b64_sextets bs)) = map b64_char (b64_sextets bs))
    by (destruct (Nat.eqb _ 0); [exact SP | reflexivity]).
  rewrite E, length_map, (proj2 (Nat.eqb_neq _ _) L2), (traverse_map_char _ HR), HD.
  reflexivity.
Qed.

(** [base64ToUint8] accepts the encoding of a byte array [b] with ASCII
    whitespace inserted anywhere, and also without its [=] padding: every
    such string decodes to [b]. *)
Theorem base64ToUint8_lenient (b : list Z) (Hb : Forall is_byte b) (s : list Z)
  (Hs : filter (fun c => negb (is_ascii_whitespace c)) s = b64_encode b \/
        filter (fun c => negb (is_ascii_whitespace c)) s = map b64_char (b64_sextets b)) :
  base64ToUint8 s = Some b.
Proof.
  unfold base64ToUint8. rewrite atob_filter.
  destruct Hs as [-> | ->]; [rewrite (atob_b64_encode b Hb) | rewrite (atob_unpadded b Hb)];
    rewrite (bytes_mod256 b Hb); reflexivity.
Qed.

Lemma strip_padding_keeps c l : In c l -> c <> 61 -> In c (strip_padding l).
Proof.
  intros Hc Hn. unfold strip_padding. apply in_rev in Hc.
  destruct (rev l) as [|x r1] eqn:E; [destruct Hc|].
  destruct (x =? 61) eqn:Ex; [|apply in_rev; rewrite E; exact Hc].
  apply Z.eqb_eq in Ex. destruct Hc as [Hc|Hc]; [congruence|].
  destruct r1 as [|y r2]; [destruct Hc|].
  destruct (y =? 61) eqn:Ey.
  - apply Z.eqb_eq in Ey. destruct Hc as [Hc|Hc]; [congruence|]. apply in_rev.
    rewrite rev_involutive. exact Hc.
  - apply in_rev. rewrite rev_involutive. exact Hc.
Qed.

Lemma traverse_val_bad c l : In c l -> b64_val c = None -> traverse_val l = None.
Proof.
  induction l as [|x l IH]; intros Hc Hv; [destruct Hc|].
  cbn. destruct Hc as [<-|Hc].
  - rewrite Hv. reflexivity.
  - rewrite (IH Hc Hv). destruct (b64_val x); reflexivity.
Qed.

(** [base64ToUint8] refuses (throws) on a string holding a character that
    is neither ASCII whitespace, [=], nor a base64 alphabet character, and
    on one whose non-whitespace length leaves remainder 1 modulo 4. *)
Theorem base64ToUint8_rejects (s : list Z) :
  (forall c, In c s -> is_ascii_whitespace c = false -> c <> 61 -> b64_val c = None ->
   base64ToUint8 s = None) /\
  (Nat.modulo (List.length (filter (fun c => negb (is_ascii_whitespace c)) s)) 4 = 1%nat ->
   base64ToUint8 s = None).
Proof.
  split.
  - intros c Hc Hw Hn Hv. unfold base64ToUint8, atob.
    set (s1 := filter (fun c => negb (is_ascii_whitespace c)) s).
    assert (H1 : In c s1) by (apply filter_In; split; [exact Hc | rewrite Hw; reflexivity]).
    set (s2 := if Nat.eqb (Nat.modulo (List.length s1) 4) 0 then strip_padding s1 else s1).
    assert (H2 : In c s2).
    { unfold s2. destruct (Nat.eqb _ 0); [apply strip_padding_keeps|]; assumption. }
    destruct (Nat.eqb (Nat.modulo (List.length s2) 4) 1); [reflexivity|].
    rewrite (traverse_val_bad c s2 H2 Hv). reflexivity.
  - intros H. unfold base64ToUint8, atob. rewrite H. cbn [Nat.eqb]. rewrite H. reflexivity.
Qed.

Lemma b64_encode_length b :
  List.length (b64_encode b) = (4 * ((List.length b + 2) / 3))%nat.
Proof.
  induction b as [|a|a b|a b c rest IH] using list_ind3; try reflexivity.
  cbn [b64_encode List.length]. rewrite length_app, IH. cbn [map List.length].
  replace (S (S (S (List.length rest))) + 2)%nat with ((List.length rest + 2) + 1 * 3)%nat
    by lia.
  rewrite Nat.div_add by lia. lia.
Qed.

Lemma b64_pad_repeat b :
  b64_pad b = repeat 61 ((3 - Nat.modulo (List.length b) 3) mod 3)%nat.
Proof.
  induction b as [|a|a b|a b c rest IH] using list_ind3; try reflexivity.
  cbn [b64_pad List.length]. rewrite IH.
  replace (S (S (S (List.length rest))))%nat with (List.length rest + 1 * 3)%nat by lia.
  rewrite Nat.Div0.mod_add. reflexivity.
Qed.

(** For a byte array of length n, [uint8ToBase64] returns 4 * ceil(n / 3)
    characters: base64 alphabet characters followed by (3 - n mod 3) mod 3
    [=] signs. *)
Theorem uint8ToBase64_shape (b : list Z) (Hb : Forall is_byte b) :
  exists s, uint8ToBase64 b = Some s /\
    List.length s = (4 * ((List.length b + 2) / 3))%nat /\
    exists body, s = body ++ repeat 61 ((3 - Nat.modulo (List.length b) 3) mod 3)%nat /\
                 Forall (fun c => b64_val c <> None) body.
Proof.
  exists (b64_encode b). split; [apply uint8ToBase64_bytes, Hb|].
  split; [apply b64_encode_length|].
  exists (map b64_char (b64_sextets b)). split.
  - rewrite <- b64_pad_repeat. apply b64_encode_split.
  - destruct (b64_sextets_ok b Hb) as [HR _].
    apply Forall_map. eapply Forall_impl; [|exact HR].
    intros v Hv. destruct (b64_char_props v Hv) as [-> _]. discriminate.
Qed.

Lemma base64ToUint8_lenient_witness :
  Forall is_byte [1; 2] /\
  base64ToUint8 [65; 81; 32; 73] = Some [1; 2].
Proof.
  assert (H : Forall is_byte [1; 2]) by (repeat constructor; unfold is_byte; lia).
  split; [exact H|].
  apply (base64ToUint8_lenient [1; 2] H). right. vm_compute. reflexivity.
Defined.

Lemma uint8ToBase64_shape_witness :
  Forall is_byte [1; 2] /\ uint8ToBase64 [1; 2] = Some [65; 81; 73; 61].
Proof.
  assert (H : Forall is_byte [1; 2]) by (repeat constructor; unfold is_byte; lia).
  split; [exact H|].
  destruct (uint8ToBase64_shape [1; 2] H) as (s & E & _). rewrite E.
  rewrite uint8ToBase64_bytes in E by exact H. injection E as <-. reflexivity.
Defined.

End EncodingExtra.

(** ** Sessions, signing and submission *)

Module BackgroundExtra.
Import Types Tx Store Background Ref Effects GasProofs.

Lemma find_without_same a st : find_session a (without_address a st) = None.
Proof.
  induction st as [|s st IH]; [reflexivity|].
  unfold without_address in *. cbn.
  destruct (String.eqb (address s) a) eqn:E; cbn; [exact IH|].
  unfold find_session in *. cbn. rewrite E. exact IH.
Qed.

Lemma find_without_other a b st :
  b <> a -> find_session b (without_address a st) = find_session b st.
Proof.
  intros Hba. induction st as [|s st IH]; [reflexivity|].
  unfold without_address, find_session in *. cbn.
  destruct (String.eqb_spec (address s) a) as [Ea|Ea]; cbn.
  - destruct (String.eqb_spec (address s) b) as [Eb|Eb]; [congruence|exact IH].
  - destruct (String.eqb (address s) b); [reflexivity|exact IH].
Qed.

Lemma getSession_eq addr env w :
  getSessionOrThrow addr env w =
    (match find_session addr (w_sessions w) with
     | Some s => inr s | None => inl NO_SESSION_MSG end, w).
Proof.
  unfold getSessionOrThrow, bind, getAccountSessions. cbv beta iota.
  destruct (find_session addr (w_sessions w)); reflexivity.
Qed.

(** After [logoutAccount a], looking up [a] (as every signing handler does
    through [getSessionOrThrow]) fails with the no-session error, the lookup
    of any other address gives what it gave before, and the accounts the
    logout reports are the public data of the remaining sessions. *)
Theorem logout_then_lookup (a b : string) (env : Env) (w : World) :
  let w1 := snd (logoutAccount a env w) in
  fst (logoutAccount a env w) =
    inr {| resp_type := "LOGOUT_ACCOUNT"%string; resp_ok := true;
           resp_data := Some (AccountsData (sessionsToPublicData (w_sessions w1)));
           resp_error := None |} /\
  getSessionOrThrow a env w1 = (inl NO_SESSION_MSG, w1) /\
  (b <> a -> fst (getSessionOrThrow b env w1) = fst (getSessionOrThrow b env w)).
Proof.
  cbv zeta. split; [reflexivity|].
  change (w_sessions (snd (logoutAccount a env w))) with (without_address a (w_sessions w)).
  split.
  - rewrite getSession_eq. change (w_sessions (snd (logoutAccount a env w)))
      with (without_address a (w_sessions w)).
    rewrite find_without_same. reflexivity.
  - intros Hba. rewrite !getSession_eq. change (w_sessions (snd (logoutAccount a env w)))
      with (without_address a (w_sessions w)).
    rewrite (find_without_other a b _ Hba). reflexivity.
Qed.

(** *** Computations that never submit *)

Lemma quiet_ret {A} (a : A) : quiet (ret a).
Proof. intros env w. split; [reflexivity|]. exists []. rewrite app_nil_r. auto. Qed.

Lemma quiet_throw {A} e : quiet (@throw A e).
Proof. intros env w. split; [reflexivity|]. exists []. rewrite app_nil_r. auto. Qed.

Lemma quiet_bind_throw {A B} e (k : A -> M B) : quiet (bind (throw e) k).
Proof. intros env w. split; [reflexivity|]. exists []. rewrite app_nil_r. auto. Qed.

Lemma quiet_bind {A B} (m : M A) (k : A -> M B) :
  quiet m -> (forall a, quiet (k a)) -> quiet (bind m k).
Proof.
  intros Hm Hk env w. unfold bind.
  destruct (Hm env w) as [S1 (e1 & T1 & F1)].
  destruct (m env w) as [[e|a] w1] eqn:E; cbn in *.
  - split; [exact S1|]. exists e1. auto.
  - destruct (Hk a env w1) as [S2 (e2 & T2 & F2)].
    split; [congruence|]. exists (e1 ++ e2). rewrite T2, T1, app_assoc.
    split; [reflexivity|]. rewrite forallb_app, F1, F2. reflexivity.
Qed.

Lemma quiet_catch {A} (m : M A) (h : string -> M A) :
  quiet m -> (forall e, quiet (h e)) -> quiet (catch m h).
Proof.
  intros Hm Hh env w. unfold catch.
  destruct (Hm env w) as [S1 (e1 & T1 & F1)].
  destruct (m env w) as [[e|a] w1] eqn:E; cbn in *.
  - destruct (Hh e env w1) as [S2 (e2 & T2 & F2)].
    split; [congruence|]. exists (e1 ++ e2). rewrite T2, T1, app_assoc.
    split; [reflexivity|]. rewrite forallb_app, F1, F2. reflexivity.
  - split; [exact S1|]. exists e1. auto.
Qed.

Lemma quiet_event {A} (r : Env -> string + A) ev :
  is_submit ev = false -> quiet (fun env w => (r env, emit ev w)).
Proof. intros Hs env w. split; [reflexivity|]. exists [ev]. cbn. rewrite Hs. auto. Qed.

Lemma quiet_collect a : quiet (collectSpendableCoins a).
Proof. intros env w. split; [reflexivity|]. exists [EvCollect a]. auto. Qed.

Lemma quiet_poll a ds : quiet (poll_faucet a ds).
Proof.
  induction ds as [|d ds IH]; cbn [poll_faucet]; [apply quiet_ret|].
  apply quiet_bind; [apply (quiet_event (fun _ => inr tt)); reflexivity|]. intros _.
  apply quiet_bind; [apply quiet_collect|]. intros st.
  destruct (0 <? List.length (coins st))%nat; [apply quiet_ret | exact IH].
Qed.

Lemma quiet_lift {A} (r : string + A) : quiet (lift r).
Proof. destruct r; [apply quiet_throw | apply quiet_ret]. Qed.

Lemma quiet_ensure session payload : quiet (ensureSuiForTransaction session payload).
Proof.
  unfold ensureSuiForTransaction.
  apply quiet_bind; [apply quiet_lift|]. intros t. cbv zeta.
  apply quiet_bind; [apply quiet_collect|]. intros st.
  destruct (sufficient _ st); [apply quiet_ret|]. cbn [IS_TESTNET negb].
  apply quiet_bind.
  - unfold requestFaucetAndWait. apply quiet_bind; [|intros; apply quiet_poll].
    apply quiet_catch; [|intros; apply quiet_throw].
    apply (quiet_event (fun env => if env_faucet_ok env then inr tt else inl _)). reflexivity.
  - intros _. apply quiet_bind; [apply quiet_collect|]. intros st'.
    destruct (sufficient _ st'); [apply quiet_ret | apply quiet_throw].
Qed.

(** [executeTransactionWithSession] on a payload [buildTransaction]
    rejects fails without submitting anything and leaves the sessions
    alone; but gas provisioning runs first: when the first coin read already
    covers the requirement, the chain is read once and the build error is
    what is reported. *)
Theorem executeTx_unbuildable (session : AccountSession) (payload : SerializedTransactionRequest)
  (env : Env) (w : World) (e : string)
  (Hb : buildTransaction (env_tx_from env) (address session) payload = inl e) :
  let res := executeTransactionWithSession session payload env w in
  (exists msg, fst res = inl msg) /\
  w_sessions (snd res) = w_sessions w /\
  (exists evs, w_trace (snd res) = w_trace w ++ evs /\
               forallb (fun ev => negb (is_submit ev)) evs = true) /\
  (forall t, env_key_ok env (ephemeralPrivateKey session) = true ->
   transferAmountMist payload = inr t ->
   sufficient (minimumRequired t) (read_state env (w_reads w)) = true ->
   res = (inl e, {| w_sessions := w_sessions w; w_reads := S (w_reads w);
                    w_trace := w_trace w ++ [EvCollect (address session)] |})).
Proof.
  cbv zeta.
  assert (Q : exists msg w1, executeTransactionWithSession session payload env w = (inl msg, w1) /\
                w_sessions w1 = w_sessions w /\
                (exists evs, w_trace w1 = w_trace w ++ evs /\
                             forallb (fun ev => negb (is_submit ev)) evs = true)).
  { unfold executeTransactionWithSession.
    destruct (env_key_ok env (ephemeralPrivateKey session)).
    - unfold bind at 1. destruct (quiet_ensure session payload env w) as [S1 T1].
      destruct (ensureSuiForTransaction session payload env w) as [[m|gp] w1]; cbn in S1, T1.
      + exists m, w1. auto.
      + rewrite Hb. exists e, w1. auto.
    - exists "invalid secret key"%string, w. split; [reflexivity|]. split; [reflexivity|].
      exists []. rewrite app_nil_r. auto. }
  destruct Q as (msg & w1 & E0 & S1 & T1).
  split; [rewrite E0; eexists; reflexivity|]. split; [rewrite E0; exact S1|].
  split; [rewrite E0; exact T1|]. clear E0.
  intros t Hk Ht Hs. unfold executeTransactionWithSession. rewrite Hk.
  assert (E : ensureSuiForTransaction session payload env w =
              (inr (coinsToObjectRefs (coins (read_state env (w_reads w)))),
               {| w_sessions := w_sessions w; w_reads := S (w_reads w);
                  w_trace := w_trace w ++ [EvCollect (address session)] |})).
  { rewrite (ensure_converted session payload t env w Ht).
    rewrite (bind_inr _ _ _ _ _ _ (collect_eq (address session) env w)). rewrite Hs.
    reflexivity. }
  unfold bind at 1. rewrite E. rewrite Hb. reflexivity.
Qed.

(** A signing request for a stored session whose key is valid, whose first
    coin read covers the requirement and whose payload builds, submits the
    built transaction with the gas payment set to the references of the
    largest coins, reads the chain once, and reports the submission's
    digest (or its error) in the response; the sessions are untouched. *)
Theorem signAndExecute_success (addr : string) (payload : SerializedTransactionRequest)
  (env : Env) (w : World) (session : AccountSession) (tx : Transaction) (t : Z)
  (Hs : find_session addr (w_sessions w) = Some session)
  (Hk : env_key_ok env (ephemeralPrivateKey session) = true)
  (Ht : transferAmountMist payload = inr t)
  (Hg : sufficient (minimumRequired t) (read_state env (w_reads w)) = true)
  (Hb : buildTransaction (env_tx_from env) (address session) payload = inr tx) :
  let refs := coinsToObjectRefs (coins (read_state env (w_reads w))) in
  refs <> [] /\
  signAndExecute addr payload env w =
    (inr (match env_submit env session {| tx_body := tx_body tx; tx_gasPayment := refs |} with
          | inr d => {| resp_type := "SIGN_AND_EXECUTE"%string; resp_ok := true;
                        resp_data := Some (DigestData d); resp_error := None |}
          | inl err => {| resp_type := "SIGN_AND_EXECUTE"%string; resp_ok := false;
                          resp_data := None; resp_error := Some err |}
          end),
     {| w_sessions := w_sessions w; w_reads := S (w_reads w);
        w_trace := w_trace w ++ [EvCollect (address session); EvSubmit (address session)] |}).
Proof.
  cbv zeta.
  assert (NE : coinsToObjectRefs (coins (read_state env (w_reads w))) <> []).
  { unfold sufficient in Hg. apply andb_prop in Hg as [_ Hl]. apply Nat.ltb_lt in Hl.
    unfold coinsToObjectRefs. destruct (coins (read_state env (w_reads w))); [cbn in Hl; lia|].
    discriminate. }
  split; [exact NE|].
  assert (E : ensureSuiForTransaction session payload env w =
              (inr (coinsToObjectRefs (coins (read_state env (w_reads w)))),
               {| w_sessions := w_sessions w; w_reads := S (w_reads w);
                  w_trace := w_trace w ++ [EvCollect (address session)] |})).
  { rewrite (ensure_converted session payload t env w Ht).
    rewrite (bind_inr _ _ _ _ _ _ (collect_eq (address session) env w)). rewrite Hg.
    reflexivity. }
  unfold signAndExecute, catch. unfold bind at 1. rewrite getSession_eq, Hs.
  unfold bind at 1. unfold executeTransactionWithSession. rewrite Hk.
  unfold bind at 1. rewrite E. rewrite Hb. cbn [lift ret bind].
  destruct (0 <? List.length (coinsToObjectRefs (coins (read_state env (w_reads w)))))%nat eqn:L.
  2:{ exfalso. apply NE. apply Nat.ltb_ge in L.
      destruct (coinsToObjectRefs _); [reflexivity|cbn in L; lia]. }
  unfold emit. cbn. rewrite <- app_assoc. cbn.
  destruct (env_submit env session _); reflexivity.
Qed.

Lemma executeTx_unbuildable_witness :
  let session := Samples.sample_session in
  let payload := {| kind := transfer_sui; amount := Some (Num.JFinite 1); recipient := None;
                    bytes := None |} in
  let env := Samples.sample_env (fun _ => [Samples.sample_coin "c1" 5000000000]) true in
  buildTransaction (env_tx_from env) (address session) payload =
    inl "Transfer SUI requires a recipient and numeric amount."%string /\
  executeTransactionWithSession session payload env Samples.sample_world =
    (inl "Transfer SUI requires a recipient and numeric amount."%string,
     {| w_sessions := []; w_reads := 1; w_trace := [EvCollect "0xa"%string] |}).
Proof.
  intros session payload env.
  assert (Hb : buildTransaction (env_tx_from env) (address session) payload =
               inl "Transfer SUI requires a recipient and numeric amount."%string)
    by reflexivity.
  split; [exact Hb|].
  destruct (executeTx_unbuildable session payload env Samples.sample_world _ Hb)
    as (_ & _ & _ & E).
  rewrite (E 1000000000); [reflexivity | reflexivity | vm_compute; reflexivity |
                           vm_compute; reflexivity].
Defined.

Lemma signAndExecute_success_witness :
  let w := {| w_sessions := [Samples.sample_session]; w_reads := 0; w_trace := [] |} in
  let env := Samples.sample_env (fun _ => [Samples.sample_coin "c1" 5000000000]) true in
  let tx := {| tx_body := Built "0xa" [SplitCoins GasCoin [1500000000];
                                       TransferObjects [NestedResult 0 0] (PureAddress "0xb")];
               tx_gasPayment := [] |} in
  find_session "0xa" (w_sessions w) = Some Samples.sample_session /\
  transferAmountMist Samples.sample_transfer = inr 1500000000 /\
  buildTransaction (env_tx_from env) "0xa" Samples.sample_transfer = inr tx /\
  fst (signAndExecute "0xa" Samples.sample_transfer env w) =
    inr {| resp_type := "SIGN_AND_EXECUTE"%string; resp_ok := true;
           resp_data := Some (DigestData "digest"); resp_error := None |}.
Proof.
  intros w env tx.
  assert (Hs : find_session "0xa" (w_sessions w) = Some Samples.sample_session) by reflexivity.
  assert (Ht : transferAmountMist Samples.sample_transfer = inr 1500000000)
    by (vm_compute; reflexivity).
  assert (Hb : buildTransaction (env_tx_from env) (address Samples.sample_session)
                 Samples.sample_transfer = inr tx)
    by (vm_compute; reflexivity).
  split; [exact Hs|]. split; [exact Ht|]. split; [exact Hb|].
  destruct (signAndExecute_success "0xa" Samples.sample_transfer env w Samples.sample_session tx
              1500000000 Hs eq_refl Ht ltac:(vm_compute; reflexivity) Hb) as [_ E].
  rewrite E. reflexivity.
Defined.

End BackgroundExtra.

(** ** Personal-message signing *)

Module SigningExtra.
Import Types Background Encoding EncodingProofs EncodingExtra Signing BackgroundExtra.
Local Open Scope string_scope.

(** For a stored session with a usable key, [signPersonalMessage] leaves
    the worker state unchanged; a message that is not valid base64 gets the
    failure response carrying [atob]'s error; a message produced by
    [uint8ToBase64] from a byte array is signed over exactly those bytes,
    with the stored [addressSeed] when the session has one and otherwise
    with the seed [genAddressSeed] computes (or its error). *)
Theorem signPersonalMessage_spec (sg : Signer) (addr : string) (msg : list Z)
  (env : Env) (w : World) (session : AccountSession)
  (Hs : find_session addr (w_sessions w) = Some session)
  (Hk : sg_key_error sg (ephemeralPrivateKey session) = None) :
  snd (signPersonalMessage sg addr msg env w) = w /\
  (base64ToUint8 msg = None -> fst (signPersonalMessage sg addr msg env w) = inr (sign_fail ATOB_ERROR)) /\
  (forall bytes, Forall is_byte bytes -> uint8ToBase64 bytes = Some msg ->
     fst (signPersonalMessage sg addr msg env w) =
       inr (match addressSeed (proof session) with
            | Some seed => sign_reply (sg_signature sg session seed bytes)
            | None => match sg_gen_seed sg session with
                      | inr seed => sign_reply (sg_signature sg session seed bytes)
                      | inl e => sign_fail e
                      end
            end)).
Proof.
  assert (E : forall m, signPersonalMessage sg addr m env w =
    (inr (match base64ToUint8 m with
          | None => sign_fail ATOB_ERROR
          | Some bytes =>
              match addressSeed (proof session) with
              | Some seed => sign_reply (sg_signature sg session seed bytes)
              | None => match sg_gen_seed sg session with
                        | inr seed => sign_reply (sg_signature sg session seed bytes)
                        | inl e => sign_fail e
                        end
              end
          end), w)).
  { intros m. unfold signPersonalMessage, catch. unfold bind at 1.
    rewrite getSession_eq, Hs. unfold bind at 1. rewrite Hk. unfold ret at 1.
    unfold bind at 1. destruct (base64ToUint8 m) as [bytes|]; [|reflexivity].
    unfold bind, ret. destruct (addressSeed (proof session)) as [seed|].
    - unfold lift. destruct (sg_signature sg session seed bytes); reflexivity.
    - unfold lift. destruct (sg_gen_seed sg session) as [e|seed]; [reflexivity|].
      unfold ret. destruct (sg_signature sg session seed bytes); reflexivity. }
  rewrite (E msg). split; [reflexivity|]. split.
  - intros Hn. rewrite Hn. reflexivity.
  - intros bytes Hb Henc. rewrite (uint8ToBase64_bytes bytes Hb) in Henc.
    injection Henc as <-.
    unfold base64ToUint8. rewrite (atob_b64_encode bytes Hb), (bytes_mod256 bytes Hb).
    reflexivity.
Qed.

Lemma signPersonalMessage_spec_witness :
  let sg := {| sg_key_error := fun _ => None; sg_gen_seed := fun _ => inr "77";
               sg_signature := fun _ seed _ => inr seed |} in
  let w := {| w_sessions := [Samples.sample_session]; w_reads := 0; w_trace := [] |} in
  find_session "0xa" (w_sessions w) = Some Samples.sample_session /\
  fst (signPersonalMessage sg "0xa" [61; 61] (Samples.sample_env (fun _ => []) true) w) = inr (sign_fail ATOB_ERROR).
Proof.
  intros sg w.
  assert (Hs : find_session "0xa" (w_sessions w) = Some Samples.sample_session) by reflexivity.
  split; [exact Hs|].
  destruct (signPersonalMessage_spec sg "0xa" [61; 61] (Samples.sample_env (fun _ => []) true) w Samples.sample_session Hs eq_refl)
    as (_ & H & _).
  apply H. vm_compute. reflexivity.
Defined.

End SigningExtra.

(** ** Extension settings *)

Module SettingsExtra.
Import Settings.
Local Open Scope string_scope.

Lemma length_append_str (a b : string) : String.length (a ++ b) = (String.length a + String.length b)%nat.
Proof. induction a as [|c a IH]; cbn; [reflexivity | rewrite IH; reflexivity]. Qed.

Lemma salts_at_length s : salts_at s = true -> (String.length s = 6 \/ String.length s = 7)%nat.
Proof.
  destruct s as [|c1 [|c2 [|c3 [|c4 [|c5 [|c6 rest]]]]]]; try discriminate.
  cbn [salts_at]. intros H. apply andb_prop in H as [_ H].
  apply orb_prop in H as [H|H]; apply String.eqb_eq in H; subst rest; cbn; auto.
Qed.

Lemma salts_regex_ensure x : salts_regex_test (x ++ "/ensure") = false.
Proof.
  induction x as [|c x IH]; [reflexivity|].
  change (String c x ++ "/ensure") with (String c (x ++ "/ensure")).
  cbn [salts_regex_test]. rewrite IH, orb_false_r.
  destruct (salts_at (String c (x ++ "/ensure"))) eqn:E; [|reflexivity].
  apply salts_at_length in E. cbn [String.length] in E.
  rewrite length_append_str in E. cbn in E. lia.
Qed.

Lemma sanitize_test c : salts_regex_test (saltServiceUrl (sanitizeConfig c)) = false.
Proof.
  unfold sanitizeConfig. destruct (salts_regex_test (saltServiceUrl c)) eqn:E; [|exact E].
  apply salts_regex_ensure.
Qed.

Lemma sanitize_idem c : sanitizeConfig (sanitizeConfig c) = sanitizeConfig c.
Proof.
  unfold sanitizeConfig at 1. rewrite sanitize_test. reflexivity.
Qed.

Lemma merge_full base c : merge base (to_partial c) = c.
Proof. destruct c; reflexivity. Qed.

Lemma config_eqb_refl c : config_eqb c c = true.
Proof. destruct c; unfold config_eqb; cbn; rewrite !String.eqb_refl; reflexivity. Qed.

Lemma config_eqb_eq a b : config_eqb a b = true -> a = b.
Proof.
  destruct a, b; unfold config_eqb; cbn. intros H.
  repeat (apply andb_prop in H as [H ?H]). repeat match goal with
  | E : String.eqb _ _ = true |- _ => apply String.eqb_eq in E end.
  subst. reflexivity.
Qed.

(** [sanitizeConfig] changes only the salt-service URL: it leaves a config
    whose URL does not end in [/salts] or [/salts/] (any letter case) as it
    is; after it, the URL never matches again, so it is idempotent. *)
Theorem sanitizeConfig_idempotent (c : ExtensionConfig) :
  salts_regex_test (saltServiceUrl (sanitizeConfig c)) = false /\
  sanitizeConfig (sanitizeConfig c) = sanitizeConfig c /\
  (salts_regex_test (saltServiceUrl c) = false -> sanitizeConfig c = c) /\
  twitchClientId (sanitizeConfig c) = twitchClientId c /\
  zkProverUrl (sanitizeConfig c) = zkProverUrl c /\
  zkProverAuthToken (sanitizeConfig c) = zkProverAuthToken c /\
  backendRegistrationUrl (sanitizeConfig c) = backendRegistrationUrl c /\
  nftUploadUrl (sanitizeConfig c) = nftUploadUrl c.
Proof.
  split; [apply sanitize_test|]. split; [apply sanitize_idem|].
  split; [intros E; unfold sanitizeConfig; rewrite E; reflexivity|].
  unfold sanitizeConfig. destruct (salts_regex_test (saltServiceUrl c)); repeat split.
Qed.

Lemma salts_at_iff s :
  salts_at s = true <-> to_lower s = "/salts" \/ to_lower s = "/salts/".
Proof.
  destruct s as [|c1 [|c2 [|c3 [|c4 [|c5 [|c6 rest]]]]]];
    try (cbn; split; [discriminate | intros [H|H]; discriminate]).
  cbn [salts_at]. split.
  - intros H. apply andb_prop in H as [H Hr]. apply andb_prop in H as [H _].
    apply String.eqb_eq in H.
    change (to_lower (String c1 (String c2 (String c3 (String c4 (String c5 (String c6 rest)))))))
      with (to_lower (String c1 (String c2 (String c3 (String c4 (String c5 (String c6 EmptyString))))))
            ++ to_lower rest).
    + rewrite H. apply orb_prop in Hr as [Hr|Hr]; apply String.eqb_eq in Hr; subst rest;
        [left|right]; reflexivity.
  - change (to_lower (String c1 (String c2 (String c3 (String c4 (String c5 (String c6 rest)))))))
      with (to_lower (String c1 (String c2 (String c3 (String c4 (String c5 (String c6 EmptyString))))))
            ++ to_lower rest).
    intros H.
    assert (P : to_lower (String c1 (String c2 (String c3 (String c4 (String c5
                  (String c6 EmptyString)))))) = "/salts" /\
                (to_lower rest = "" \/ to_lower rest = "/")).
    { cbn [to_lower append] in H |- *.
      destruct H as [H|H]; injection H as -> -> -> -> -> -> H; split; auto. }
    destruct P as [P1 P2]. rewrite P1. cbn [String.eqb Ascii.eqb Bool.eqb andb].
    destruct rest as [|r rest]; [reflexivity|].
    destruct P2 as [P2|P2]; [discriminate|]. cbn in P2. injection P2 as Pr Pe.
    destruct rest; [|discriminate].
    assert (R : r = "/"%char).
    { revert Pr. unfold lower_ascii.
      destruct (Nat.leb 65 (nat_of_ascii r) && Nat.leb (nat_of_ascii r) 90)%bool eqn:B;
        [|auto]. intros Pr. apply andb_prop in B as [B1 B2]. apply Nat.leb_le in B1.
      exfalso. assert (nat_of_ascii (ascii_of_nat (nat_of_ascii r + 32)) = 47%nat)
        by (rewrite Pr; reflexivity).
      rewrite nat_ascii_embedding in H0 by (apply Nat.leb_le in B2; lia). lia. }
    subst r. reflexivity.
Qed.

Lemma salts_regex_iff s :
  salts_regex_test s = true <->
  ends_with (to_lower s) "/salts" = true \/ ends_with (to_lower s) "/salts/" = true.
Proof.
  induction s as [|c s IH].
  - cbn. split; [discriminate | intros [H|H]; discriminate].
  - cbn [salts_regex_test]. change (to_lower (String c s)) with (String (lower_ascii c) (to_lower s)).
    cbn [ends_with]. fold (to_lower (String c s)).
    change (String (lower_ascii c) (to_lower s)) with (to_lower (String c s)).
    rewrite !orb_true_iff, IH, salts_at_iff, !String.eqb_eq. tauto.
Qed.

(** [sanitizeConfig] rewrites the salt-service URL exactly when, lowered,
    it ends in [/salts] or [/salts/]; it then drops one trailing slash and
    appends [/ensure]. *)
Theorem sanitizeConfig_rewrites (c : ExtensionConfig) :
  (saltServiceUrl (sanitizeConfig c) <> saltServiceUrl c <->
   ends_with (to_lower (saltServiceUrl c)) "/salts" = true \/
   ends_with (to_lower (saltServiceUrl c)) "/salts/" = true) /\
  (ends_with (to_lower (saltServiceUrl c)) "/salts" = true \/
   ends_with (to_lower (saltServiceUrl c)) "/salts/" = true ->
   saltServiceUrl (sanitizeConfig c) = strip_trailing_slash (saltServiceUrl c) ++ "/ensure").
Proof.
  rewrite <- salts_regex_iff. pose proof (sanitize_test c) as T.
  unfold sanitizeConfig in *. destruct (salts_regex_test (saltServiceUrl c)) eqn:E.
  - cbn in *. split; [split; [reflexivity | intros _ Heq]|reflexivity].
    rewrite Heq, E in T. discriminate.
  - split; [split; [intros H; exfalso; apply H; reflexivity | discriminate] | discriminate].
Qed.

(** Saving a config through the [SAVE_CONFIG] message echoes it unchanged
    and writes storage once; a following [GET_CONFIG] returns its sanitized
    form and writes nothing, whatever the default config is. *)
Theorem save_then_get_config (fetched : option PartialConfig) (c : ExtensionConfig)
    (st : ConfigStore) :
  let (r1, st1) := handleSaveConfig c st in
  let (r2, st2) := handleGetConfig fetched st1 in
  cresp_config r1 = c /\ cresp_config r2 = sanitizeConfig c /\
  config_writes st1 = S (config_writes st) /\ st2 = st1.
Proof.
  unfold handleSaveConfig, handleGetConfig, loadConfig, saveConfig.
  cbv beta iota zeta. cbn [stored_config config_writes].
  rewrite merge_full, sanitize_idem, config_eqb_refl. cbn. auto.
Qed.

(** [loadConfig] writes storage at most once and settles: what it returns
    is sanitized, and loading again returns the same config with no
    write. *)
Theorem loadConfig_stable (fetched : option PartialConfig) (st : ConfigStore) :
  let (c1, st1) := loadConfig fetched st in
  let (c2, st2) := loadConfig fetched st1 in
  c2 = c1 /\ st2 = st1 /\ sanitizeConfig c1 = c1 /\
  (config_writes st1 = config_writes st \/ config_writes st1 = S (config_writes st)).
Proof.
  unfold loadConfig at 1.
  set (m := merge (resolveDefaults fetched)
              (match stored_config st with Some p => p | None => empty_partial end)).
  destruct (config_eqb (sanitizeConfig m) m) eqn:E; cbn [negb].
  - pose proof (config_eqb_eq _ _ E) as E'. unfold loadConfig. fold m. rewrite E. cbn [negb].
    auto.
  - unfold loadConfig, saveConfig. cbv beta iota zeta. cbn [stored_config config_writes].
    rewrite merge_full, sanitize_idem, config_eqb_refl. cbn [negb].
    rewrite sanitize_idem. auto.
Qed.

Lemma qle_bool_cases (x y : Q) : (Qle_bool x y = true /\ (x <= y)%Q) \/ (Qle_bool x y = false /\ (y < x)%Q).
Proof.
  destruct (Qle_bool x y) eqn:E; [left; split; [reflexivity | apply Qle_bool_iff; exact E]|].
  right. split; [reflexivity|]. apply Qnot_le_lt. intros H. apply Qle_bool_iff in H. congruence.
Qed.

Lemma clamp_finite (q : Q) :
  exists r, js_min (JFinite MAX_WIDGET_OPACITY) (js_max (JFinite MIN_WIDGET_OPACITY) (JFinite q)) = JFinite r /\
    (MIN_WIDGET_OPACITY <= r <= MAX_WIDGET_OPACITY)%Q /\
    ((MIN_WIDGET_OPACITY <= q <= MAX_WIDGET_OPACITY)%Q -> r == q)%Q /\
    ((q < MIN_WIDGET_OPACITY)%Q -> r == MIN_WIDGET_OPACITY)%Q /\
    ((MAX_WIDGET_OPACITY < q)%Q -> r == MAX_WIDGET_OPACITY)%Q.
Proof.
  unfold js_max, js_min, MIN_WIDGET_OPACITY, MAX_WIDGET_OPACITY.
  destruct (qle_bool_cases (2 # 5) q) as [[E1 H1]|[E1 H1]]; rewrite E1;
    [destruct (qle_bool_cases 1 q) as [[E2 H2]|[E2 H2]]; rewrite E2|];
    eexists; (split; [reflexivity|]); destruct q as [n d];
    repeat split; intros; unfold Qle, Qlt, Qeq in *; cbn in *; lia.
Qed.

(** [getWidgetOpacity] always returns a finite number between
    [MIN_WIDGET_OPACITY] (0.4) and [MAX_WIDGET_OPACITY] (1), whatever is
    stored. *)
Theorem getWidgetOpacity_range (value : option Stored) :
  exists r, getWidgetOpacity value = JFinite r /\
    (MIN_WIDGET_OPACITY <= r <= MAX_WIDGET_OPACITY)%Q.
Proof.
  destruct value as [[[q| | |]|]|]; cbn [getWidgetOpacity];
    try (exists DEFAULT_WIDGET_OPACITY; split; [reflexivity|];
         unfold DEFAULT_WIDGET_OPACITY, MIN_WIDGET_OPACITY, MAX_WIDGET_OPACITY, Qle; cbn; lia).
  destruct (clamp_finite q) as (r & E & R & _). exists r. auto.
Qed.

(** Reading the opacity back after [setWidgetOpacity x]: a finite [x]
    inside [0.4, 1] is returned, below it [0.4], above it [1]; [+Infinity]
    reads as [1], [-Infinity] as [0.4], and [NaN] as the default
    [0.92]. *)
Theorem widgetOpacity_set_get (x : JsNumber) :
  exists r, getWidgetOpacity (setWidgetOpacity x) = JFinite r /\
    match x with
    | JFinite q =>
        ((MIN_WIDGET_OPACITY <= q <= MAX_WIDGET_OPACITY)%Q -> r == q)%Q /\
        ((q < MIN_WIDGET_OPACITY)%Q -> r == MIN_WIDGET_OPACITY)%Q /\
        ((MAX_WIDGET_OPACITY < q)%Q -> r == MAX_WIDGET_OPACITY)%Q
    | JPosInf => r = MAX_WIDGET_OPACITY
    | JNegInf => r = MIN_WIDGET_OPACITY
    | JNaN => r = DEFAULT_WIDGET_OPACITY
    end.
Proof.
  destruct x as [q| | |].
  - destruct (clamp_finite q) as (r & E & R & A & B & C).
    destruct (clamp_finite r) as (r' & E' & R' & A' & _).
    exists r'. unfold setWidgetOpacity. cbn [getWidgetOpacity]. rewrite E. split; [exact E'|].
    specialize (A' R). repeat split; intros H; rewrite A'; auto.
  - exists DEFAULT_WIDGET_OPACITY. split; reflexivity.
  - exists MAX_WIDGET_OPACITY. split; reflexivity.
  - exists MIN_WIDGET_OPACITY. split; reflexivity.
Qed.

(** [getOverlayPosition] always returns finite offsets; reading back a
    position set with [setOverlayPosition] gives its corner, and each
    offset as set when it is finite, 20 otherwise. *)
Theorem overlayPosition_set_get (stored : option StoredPosition) (pos : OverlayPosition) :
  (exists x y, offsetX (getOverlayPosition stored) = JFinite x /\
               offsetY (getOverlayPosition stored) = JFinite y) /\
  getOverlayPosition (setOverlayPosition pos) =
    {| corner := corner pos;
       offsetX := match offsetX pos with JFinite q => JFinite q | _ => JFinite 20 end;
       offsetY := match offsetY pos with JFinite q => JFinite q | _ => JFinite 20 end |}.
Proof.
  split.
  - destruct stored as [[c ox oy]|]; [|exists (20 # 1), (20 # 1); split; reflexivity]. cbn.
    destruct ox as [[[x| | |]|]|], oy as [[[y| | |]|]|]; cbn; eauto.
  - destruct pos as [c [x| | |] [y| | |]]; reflexivity.
Qed.

End SettingsExtra.

(** ** Account overview *)

Module OverviewExtra.
Import Overview.
Local Open Scope string_scope.

Lemma lookup_app d a b :
  lookup d (a ++ b) = match lookup d a with Some r => Some r | None => lookup d b end.
Proof.
  induction a as [|x a IH]; [reflexivity|]. cbn. destruct (String.eqb (rt_digest x) d); auto.
Qed.

Lemma has_digest_lookup d l : has_digest d l = false -> lookup d l = None.
Proof.
  induction l as [|x l IH]; [reflexivity|]. cbn. intros H. apply orb_false_iff in H as [H1 H2].
  rewrite H1. auto.
Qed.

Lemma has_digest_lookup_some d l : has_digest d l = true -> exists r, lookup d l = Some r.
Proof.
  induction l as [|x l IH]; [discriminate|]. cbn. intros H.
  destruct (String.eqb (rt_digest x) d); [eauto|auto].
Qed.

Lemma has_digest_notin d l : has_digest d l = false -> ~ In d (map rt_digest l).
Proof.
  induction l as [|x l IH]; [auto|]. cbn. intros H. apply orb_false_iff in H as [H1 H2].
  intros [E|E]; [subst; rewrite String.eqb_refl in H1; discriminate | exact (IH H2 E)].
Qed.

Lemma fold_step_lookup l acc d :
  lookup d (fold_left step l acc) =
  match lookup d acc with Some r => Some r | None => option_map to_recent (first_tx d l) end.
Proof.
  revert acc. induction l as [|tx l IH]; intros acc; cbn [fold_left].
  - destruct (lookup d acc); reflexivity.
  - rewrite IH. unfold step. cbn [first_tx find]. fold (first_tx d l).
    destruct (has_digest (tb_digest tx) acc) eqn:H.
    + destruct (String.eqb (tb_digest tx) d) eqn:E; [|reflexivity].
      apply String.eqb_eq in E. subst d. destruct (has_digest_lookup_some _ _ H) as [r ->].
      reflexivity.
    + rewrite lookup_app. destruct (lookup d acc); [reflexivity|]. cbn.
      change (rt_digest (to_recent tx)) with (tb_digest tx).
      destruct (String.eqb (tb_digest tx) d); reflexivity.
Qed.

Lemma fold_step_nodup l acc :
  NoDup (map rt_digest acc) -> NoDup (map rt_digest (fold_left step l acc)).
Proof.
  revert acc. induction l as [|tx l IH]; intros acc Hacc; cbn [fold_left]; [exact Hacc|].
  apply IH. unfold step. destruct (has_digest (tb_digest tx) acc) eqn:H; [exact Hacc|].
  rewrite map_app. cbn. apply NoDup_app; [exact Hacc | repeat constructor; auto |].
  intros x Hx [E|[]]. subst x. exact (has_digest_notin _ _ H Hx).
Qed.

Lemma nodup_lookup_in r l : NoDup (map rt_digest l) -> In r l -> lookup (rt_digest r) l = Some r.
Proof.
  induction l as [|x l IH]; [intros _ []|]. cbn. intros Hn Hin. inversion Hn as [|? ? Hx Hn']; subst.
  destruct Hin as [<-|Hin]; [rewrite String.eqb_refl; reflexivity|].
  destruct (String.eqb (rt_digest x) (rt_digest r)) eqn:E.
  - apply String.eqb_eq in E. exfalso. apply Hx. rewrite E. apply in_map. exact Hin.
  - auto.
Qed.

Lemma lookup_in d l r : lookup d l = Some r -> In r l.
Proof. unfold lookup. intros H. apply find_some in H. tauto. Qed.

Lemma dedup_fold incoming outgoing :
  appendTx (appendTx [] incoming) outgoing = fold_left step (or_empty incoming ++ or_empty outgoing) [].
Proof. unfold appendTx. rewrite fold_left_app. reflexivity. Qed.

Lemma insert_perm r l : Permutation (insert_by_time r l) (r :: l).
Proof.
  induction l as [|y l IH]; cbn; [reflexivity|].
  destruct (ts_of y <? ts_of r)%Z; [reflexivity|].
  rewrite IH. apply perm_swap.
Qed.

Lemma sort_perm l acc :
  Permutation (fold_left (fun acc r => insert_by_time r acc) l acc) (l ++ acc).
Proof.
  revert acc. induction l as [|x l IH]; intros acc; cbn; [reflexivity|].
  rewrite IH, insert_perm. symmetry. apply Permutation_middle.
Qed.

Lemma insert_hd y r l : newer y r -> HdRel newer y l -> HdRel newer y (insert_by_time r l).
Proof.
  intros H1 H2. destruct l as [|z l]; cbn; [constructor; exact H1|].
  destruct (ts_of z <? ts_of r)%Z; constructor; [exact H1|]. inversion H2; assumption.
Qed.

Lemma insert_sorted r l : Sorted newer l -> Sorted newer (insert_by_time r l).
Proof.
  induction l as [|y l IH]; intros H; cbn; [repeat constructor|].
  destruct (ts_of y <? ts_of r)%Z eqn:E.
  - constructor; [exact H|]. constructor. apply Z.ltb_lt in E. unfold newer. lia.
  - apply Sorted_inv in H as [H1 H2]. constructor; [auto|].
    apply insert_hd; [|exact H2]. apply Z.ltb_ge in E. unfold newer. lia.
Qed.

Lemma sort_sorted l acc :
  Sorted newer acc -> Sorted newer (fold_left (fun acc r => insert_by_time r acc) l acc).
Proof.
  revert acc. induction l as [|x l IH]; intros acc H; cbn; [exact H|].
  apply IH, insert_sorted, H.
Qed.

Lemma sort_strongly l : StronglySorted newer (sort_by_time l).
Proof.
  apply Sorted_StronglySorted; [unfold newer; intros a b c; lia|].
  apply sort_sorted. constructor.
Qed.

Lemma in_firstn_in {A} n (l : list A) x : In x (firstn n l) -> In x l.
Proof.
  revert l. induction n as [|n IH]; intros [|a l] H; cbn in *; try contradiction.
  destruct H as [->|H]; auto.
Qed.

Lemma strongly_firstn {A} (R : A -> A -> Prop) n l :
  StronglySorted R l -> StronglySorted R (firstn n l).
Proof.
  revert n. induction l as [|a l IH]; intros [|n] H; cbn; [constructor..|].
  apply StronglySorted_inv in H as [H1 H2]. constructor; [auto|].
  rewrite Forall_forall in H2 |- *. intros x Hx. apply H2. eapply in_firstn_in; eauto.
Qed.

Lemma strongly_prefix {A} (R : A -> A -> Prop) n l x :
  StronglySorted R l -> In x l ->
  In x (firstn n l) \/ (List.length (firstn n l) = n /\ Forall (fun y => R y x) (firstn n l)).
Proof.
  revert n. induction l as [|a l IH]; intros n H Hx; [destruct Hx|].
  destruct n as [|n]; [right; split; [reflexivity | constructor]|].
  apply StronglySorted_inv in H as [H1 H2]. cbn.
  destruct Hx as [<-|Hx]; [left; left; reflexivity|].
  destruct (IH n H1 Hx) as [L|[L F]]; [left; right; exact L|].
  right. split; [rewrite L; reflexivity|]. constructor; [|exact F].
  rewrite Forall_forall in H2. apply H2, Hx.
Qed.

Lemma nodup_firstn {A} n (l : list A) : NoDup l -> NoDup (firstn n l).
Proof.
  intros H. rewrite <- (firstn_skipn n l) in H. apply NoDup_app_remove_r in H. exact H.
Qed.

(** The recent transactions of the overview: at most 10, one per digest,
    newest first (a missing timestamp counts as 0). Each is the first
    entry with its digest in the incoming then outgoing lists. A
    transaction is left out only when 10 entries are listed, none older
    than it. *)
Theorem recentTransactions_spec (incoming outgoing : option (list TxBlock)) :
  let all := (or_empty incoming ++ or_empty outgoing)%list in
  let recent := recentTransactions incoming outgoing in
  (List.length recent <= 10)%nat /\
  NoDup (map rt_digest recent) /\
  StronglySorted (fun a b => ts_of b <= ts_of a)%Z recent /\
  (forall r, In r recent -> exists tx, first_tx (rt_digest r) all = Some tx /\ r = to_recent tx) /\
  (forall d tx, first_tx d all = Some tx ->
     In (to_recent tx) recent \/
     (List.length recent = 10%nat /\ Forall (fun r => ts_of (to_recent tx) <= ts_of r)%Z recent)).
Proof.
  cbn zeta. unfold recentTransactions. rewrite dedup_fold.
  set (all := (or_empty incoming ++ or_empty outgoing)%list).
  set (dd := fold_left step all []).
  assert (ND : NoDup (map rt_digest dd)) by (apply fold_step_nodup; constructor).
  assert (P : Permutation (sort_by_time dd) dd)
    by (unfold sort_by_time; rewrite sort_perm, app_nil_r; reflexivity).
  assert (S : StronglySorted newer (sort_by_time dd)) by apply sort_strongly.
  split; [apply firstn_le_length|].
  split.
  { rewrite <- firstn_map. apply nodup_firstn.
    apply (Permutation_NoDup (Permutation_map rt_digest (Permutation_sym P))). exact ND. }
  split; [apply strongly_firstn, S|].
  split.
  - intros r Hr. apply in_firstn_in in Hr. apply (Permutation_in _ P) in Hr.
    pose proof (nodup_lookup_in r dd ND Hr) as L. unfold dd in L.
    rewrite fold_step_lookup in L. cbn in L.
    destruct (first_tx (rt_digest r) all) as [tx|]; [|discriminate].
    injection L as <-. eauto.
  - intros d tx Hf.
    assert (L : lookup d dd = Some (to_recent tx))
      by (unfold dd; rewrite fold_step_lookup, Hf; reflexivity).
    apply lookup_in in L. apply (Permutation_in _ (Permutation_sym P)) in L.
    exact (strongly_prefix newer 10 _ _ S L).
Qed.

Lemma nfts_fold items acc :
  fold_left
    (fun (list_ : list NftEntry) item =>
       if (match display_string item "name" with Some s => String.eqb s "" | None => true end)
          && String.prefix "0x2::coin::" (item_type item) then list_
       else (list_ ++ [nft_entry item])%list) items acc =
  (acc ++ map nft_entry (filter (fun it => negb (nft_skipped it)) items))%list.
Proof.
  revert acc. induction items as [|it items IH]; intros acc; cbn; [rewrite app_nil_r; reflexivity|].
  rewrite IH. unfold nft_skipped.
  destruct (_ && _); cbn; [reflexivity|]. rewrite <- app_assoc. reflexivity.
Qed.

(** [nfts] lists the owned objects in order, one entry each, except the
    objects with no non-empty name whose type starts with [0x2::coin::];
    a listed description is never empty, and a failed object query gives
    no entry. *)
Theorem nfts_spec (items : list SuiObject) :
  nfts None = [] /\
  nfts (Some items) = map nft_entry (filter (fun it => negb (nft_skipped it)) items) /\
  Forall (fun e => nft_description e <> Some "") (nfts (Some items)).
Proof.
  assert (E : nfts (Some items) = map nft_entry (filter (fun it => negb (nft_skipped it)) items)).
  { unfold nfts. cbn [or_empty]. etransitivity; [apply (nfts_fold items [])|]. reflexivity. }
  split; [reflexivity|]. split; [exact E|]. rewrite E.
  apply Forall_forall. intros e He. apply in_map_iff in He as (it & <- & _).
  unfold nft_entry. cbn. destruct (display_string it "description") as [d|]; [|discriminate].
  destruct (String.eqb d "") eqn:D; [discriminate|]. intros H. injection H as ->. discriminate.
Qed.

End OverviewExtra.

(** ** String facts *)

Module StringFacts.
Import Settings.
Local Open Scope string_scope.

Lemma str_app_assoc (a b c : string) : a ++ b ++ c = (a ++ b) ++ c.
Proof. induction a as [|x a IH]; cbn; [reflexivity | rewrite IH; reflexivity]. Qed.

Lemma str_app_nil (a : string) : a ++ "" = a.
Proof. induction a as [|x a IH]; cbn; [reflexivity | rewrite IH; reflexivity]. Qed.

Lemma str_app_inj_tail (a b : string) (c d : ascii) :
  a ++ String c "" = b ++ String d "" -> a = b /\ c = d.
Proof.
  revert b. induction a as [|x a IH]; intros [|y b]; cbn; intros H.
  - injection H as ->. auto.
  - injection H as _ H. destruct b; discriminate.
  - injection H as _ H. destruct a; discriminate.
  - injection H as -> H. destruct (IH b H) as [-> ->]. auto.
Qed.

Lemma prefix_app (p s : string) : String.prefix p s = true <-> exists y, s = p ++ y.
Proof.
  revert s. induction p as [|a p IH]; intros s; cbn.
  - split; [intros _; exists s; reflexivity | destruct s; reflexivity].
  - destruct s as [|b s].
    + split; [discriminate | intros [y H]; discriminate].
    + cbn [String.prefix]. destruct (ascii_dec a b) as [<-|N].
      * rewrite IH. split; intros [y H]; exists y; [rewrite H; reflexivity | injection H; auto].
      * split; [discriminate | intros [y H]; injection H as E _; congruence].
Qed.

Lemma ends_with_app (s p : string) : ends_with s p = true <-> exists x, s = x ++ p.
Proof.
  induction s as [|c s IH]; cbn [ends_with].
  - rewrite orb_false_r, String.eqb_eq. split; [intros <-; exists ""; reflexivity|].
    intros [[|y x] H]; [exact H | discriminate].
  - rewrite orb_true_iff, String.eqb_eq, IH. split.
    + intros [<-|[x ->]]; [exists ""; reflexivity | exists (String c x); reflexivity].
    + intros [[|y x] H]; [left; exact H | right; exists x; injection H; auto].
Qed.

Lemma includes_app (s p : string) : includes s p = true <-> exists x y, s = x ++ p ++ y.
Proof.
  induction s as [|c s IH]; cbn [includes].
  - rewrite orb_false_r, prefix_app. split.
    + intros [y H]. exists "", y. exact H.
    + intros [[|z x] [y H]]; [exists y; exact H | discriminate].
  - rewrite orb_true_iff, prefix_app, IH. split.
    + intros [[y H]|[x [y H]]]; [exists "", y; exact H | exists (String c x), y; rewrite H; reflexivity].
    + intros [[|z x] [y H]]; [left; exists y; exact H | right; exists x, y; injection H; auto].
Qed.

Lemma includes_ends_with (s p : string) : ends_with s p = true -> includes s p = true.
Proof.
  rewrite ends_with_app, includes_app. intros [x ->]. exists x, "". rewrite str_app_nil. reflexivity.
Qed.

Lemma includes_suffix (a p : string) : includes (a ++ p) p = true.
Proof. apply includes_ends_with, ends_with_app. eauto. Qed.

Lemma includes_app_l (a b p : string) : includes a p = true -> includes (a ++ b) p = true.
Proof.
  rewrite !includes_app. intros [x [y ->]]. exists x, (y ++ b). rewrite <- !str_app_assoc. reflexivity.
Qed.

Lemma to_lower_app (a b : string) : to_lower (a ++ b) = to_lower a ++ to_lower b.
Proof. induction a as [|c a IH]; cbn; [reflexivity | rewrite IH; reflexivity]. Qed.

Lemma strip_trailing_slash_cases (s : string) :
  strip_trailing_slash s = s \/ s = strip_trailing_slash s ++ "/".
Proof.
  induction s as [|c s IH]; [left; reflexivity|]. cbn [strip_trailing_slash].
  destruct s as [|c' s'].
  - destruct (Ascii.eqb c "/") eqn:E; [right; apply Ascii.eqb_eq in E; subst; reflexivity | left; reflexivity].
  - destruct IH as [IH|IH]; [left; rewrite IH; reflexivity|].
    right. cbn. f_equal. exact IH.
Qed.

End StringFacts.

(** ** Salt resolution *)

Module SaltExtra.
Import Json Prover Settings Salt StringFacts SettingsExtra.
Local Open Scope string_scope.

(** What [resolveSalt] returns is always truthy, and a GET (the dummy
    JSON file) carries no body. For a URL containing [/salts] (any letter
    case) it POSTs to an endpoint containing [/ensure], and the salt it
    returns is a non-empty string. *)
Theorem resolveSalt_outcome (fetch : SaltRequest -> HttpResponse) (getURL : string -> string)
    (url twitchId jwt : string) :
  let (req, res) := resolveSalt fetch getURL url twitchId jwt in
  (forall v, res = inr v -> truthy (Some v) = true) /\
  (req_method req = "GET" ->
   req_body req = None /\ ends_with (req_url req) "dummy-salt-service.json" = true) /\
  (includes (to_lower url) "/salts" = true ->
   req_method req = "POST" /\ includes (to_lower (req_url req)) "/ensure" = true /\
   (forall v, res = inr v -> exists s, v = JStr s /\ s <> "")).
Proof.
  unfold resolveSalt. destruct (includes (to_lower url) "/salts") eqn:S.
  - cbn zeta. split; [|split; [discriminate|]].
    + intros v. destruct (http_ok _); cbn [negb]; [|discriminate].
      destruct (get _ "salt") as [[| | |s| |]|]; try discriminate.
      destruct (String.eqb s "") eqn:E; [discriminate|]. intros H. injection H as <-.
      cbn. rewrite E. reflexivity.
    + intros _. split; [reflexivity|]. split.
      * cbn [req_url]. destruct (includes (to_lower url) "/ensure") eqn:E; [exact E|].
        rewrite to_lower_app. apply includes_suffix.
      * intros v. destruct (http_ok _); cbn [negb]; [|discriminate].
        destruct (get _ "salt") as [[| | |s| |]|]; try discriminate.
        destruct (String.eqb s "") eqn:E; [discriminate|]. intros H. injection H as <-.
        exists s. split; [reflexivity|]. apply String.eqb_neq, E.
  - unfold fetchSalt. cbn zeta. split; [|split; [|discriminate]].
    + intros v. destruct (http_ok _); cbn [negb]; [|discriminate].
      destruct (http_json _) as [| | | | |]; try discriminate;
        destruct (get _ "salt") as [w|]; try discriminate;
        destruct (truthy (Some w)) eqn:T; try discriminate;
        intros H; injection H as <-; exact T.
    + cbn [req_method req_body req_url].
      destruct (ends_with _ "dummy-salt-service.json") eqn:D; [auto | discriminate].
Qed.

(** Outside the [/salts] backend, [resolveSalt] returns whatever truthy
    [salt] the service's JSON object holds, a number for instance, though
    its type says [string]. *)
Theorem resolveSalt_legacy_any_salt (fetch : SaltRequest -> HttpResponse)
    (getURL : string -> string) (url twitchId jwt : string) (v : Json)
    (Hs : includes (to_lower url) "/salts" = false)
    (Hok : http_ok (fetch (fst (resolveSalt fetch getURL url twitchId jwt))) = true)
    (Hv : get (http_json (fetch (fst (resolveSalt fetch getURL url twitchId jwt)))) "salt" = Some v)
    (Ht : truthy (Some v) = true) :
  snd (resolveSalt fetch getURL url twitchId jwt) = inr v.
Proof.
  revert Hok Hv. unfold resolveSalt. rewrite Hs. unfold fetchSalt. cbn zeta. cbn [fst snd].
  intros Hok Hv. rewrite Hok. cbn [negb].
  destruct (http_json _) as [| | | | |]; cbn [get] in Hv |- *; try discriminate;
    rewrite Hv, Ht; reflexivity.
Qed.

Lemma salts_in_stripped (u : string) :
  salts_regex_test u = true -> includes (to_lower (strip_trailing_slash u)) "/salts" = true.
Proof.
  rewrite salts_regex_iff. intros H.
  destruct (strip_trailing_slash_cases u) as [E|E].
  - rewrite E. destruct H as [H|H]; apply includes_ends_with in H; [exact H|].
    rewrite includes_app in H |- *. destruct H as [x [y H]].
    exists x, ("/" ++ y). rewrite H. reflexivity.
  - rewrite E, to_lower_app in H. cbn [to_lower lower_ascii] in H.
    change (lower_ascii "/") with "/"%char in H.
    destruct H as [H|H]; apply ends_with_app in H as [x H].
    + change "/salts" with ("/salt" ++ String "s" "") in H.
      rewrite str_app_assoc in H. apply str_app_inj_tail in H as [_ H]. discriminate.
    + change "/salts/" with ("/salts" ++ String "/" "") in H.
      rewrite str_app_assoc in H. apply str_app_inj_tail in H as [H _].
      rewrite H. apply includes_suffix.
Qed.

(** The salt URL is sanitized before use ([loadConfig]); when the URL
    does not contain [/ensure], this changes neither the request
    [resolveSalt] makes nor its result. *)
Theorem resolveSalt_sanitized (fetch : SaltRequest -> HttpResponse) (getURL : string -> string)
    (c : ExtensionConfig) (twitchId jwt : string)
    (He : includes (to_lower (saltServiceUrl c)) "/ensure" = false) :
  resolveSalt fetch getURL (saltServiceUrl (sanitizeConfig c)) twitchId jwt =
  resolveSalt fetch getURL (saltServiceUrl c) twitchId jwt.
Proof.
  unfold sanitizeConfig. destruct (salts_regex_test (saltServiceUrl c)) eqn:R; [|reflexivity].
  cbn [saltServiceUrl]. set (u := saltServiceUrl c) in *.
  pose proof (salts_in_stripped u R) as Hs.
  assert (Hu : includes (to_lower u) "/salts" = true).
  { apply salts_regex_iff in R. destruct R as [R|R]; apply includes_ends_with in R; [exact R|].
    rewrite includes_app in R |- *. destruct R as [x [y R]].
    exists x, ("/" ++ y). rewrite R. reflexivity. }
  unfold resolveSalt. rewrite to_lower_app, (includes_app_l _ _ _ Hs), Hu, He, includes_suffix.
  reflexivity.
Qed.

Lemma resolveSalt_legacy_any_salt_witness :
  includes (to_lower "https://salt.example/api") "/salts" = false /\
  snd (resolveSalt
         (fun _ => {| http_ok := true; http_status := 200; http_text := "salt 5";
                      http_json := JObj [("salt", JNum 5)] |})
         (fun p => p) "https://salt.example/api" "twitch-id" "jwt") = inr (JNum 5).
Proof.
  split; [reflexivity|].
  apply (resolveSalt_legacy_any_salt _ _ _ _ _ _); reflexivity.
Defined.

Lemma resolveSalt_sanitized_witness :
  let c := {| twitchClientId := ""; saltServiceUrl := "https://api.example/Salts/";
              zkProverUrl := "https://prover-dev.mystenlabs.com/v1"; zkProverAuthToken := "";
              backendRegistrationUrl := ""; nftUploadUrl := "" |} in
  let fetch := fun _ : SaltRequest =>
    {| http_ok := true; http_status := 200; http_text := "";
       http_json := JObj [("salt", JStr "123")] |} in
  includes (to_lower (saltServiceUrl c)) "/ensure" = false /\
  resolveSalt fetch (fun p => p) (saltServiceUrl (sanitizeConfig c)) "twitch-id" "jwt" =
  resolveSalt fetch (fun p => p) (saltServiceUrl c) "twitch-id" "jwt".
Proof.
  intros c fetch. split; [reflexivity|].
  apply (resolveSalt_sanitized fetch (fun p => p) c "twitch-id" "jwt"); reflexivity.
Defined.

End SaltExtra.

(** ** NFT upload *)

Module UploadExtra.
Import Json Settings Upload StringFacts.
Local Open Scope string_scope.

Lemma list_ascii_app (a b : string) :
  list_ascii_of_string (a ++ b) = (list_ascii_of_string a ++ list_ascii_of_string b)%list.
Proof. induction a as [|c a IH]; cbn; [reflexivity | rewrite IH; reflexivity]. Qed.

Lemma trim_start_split s :
  exists pre, s = pre ++ trim_start s /\ forallb is_js_space (list_ascii_of_string pre) = true.
Proof.
  induction s as [|c s IH]; [exists ""; split; reflexivity|]. cbn [trim_start].
  destruct (is_js_space c) eqn:E.
  - destruct IH as [pre [H1 H2]]. exists (String c pre). split; [cbn; rewrite <- H1; reflexivity|].
    cbn. rewrite E, H2. reflexivity.
  - exists "". split; reflexivity.
Qed.

Lemma trim_start_head s :
  trim_start s = "" \/ exists c r, trim_start s = String c r /\ is_js_space c = false.
Proof.
  induction s as [|c s IH]; [left; reflexivity|]. cbn [trim_start].
  destruct (is_js_space c) eqn:E; [exact IH | right; eauto].
Qed.

Lemma trim_start_all_space s :
  forallb is_js_space (list_ascii_of_string s) = true -> trim_start s = "".
Proof.
  induction s as [|c s IH]; [reflexivity|]. cbn. intros H. apply andb_prop in H as [H1 H2].
  rewrite H1. auto.
Qed.

Lemma trim_end_split s :
  exists post, s = trim_end s ++ post /\ forallb is_js_space (list_ascii_of_string post) = true.
Proof.
  induction s as [|c s IH]; [exists ""; split; reflexivity|]. cbn [trim_end].
  destruct IH as [post [H1 H2]].
  destruct (String.eqb (trim_end s) "" && is_js_space c) eqn:E.
  - apply andb_prop in E as [E1 E2]. apply String.eqb_eq in E1. rewrite E1 in H1. cbn in H1.
    exists (String c post). split; [rewrite <- H1; reflexivity|]. cbn. rewrite E2, H2. reflexivity.
  - exists post. split; [cbn; rewrite <- H1; reflexivity | exact H2].
Qed.

Lemma trim_end_last s :
  trim_end s = "" \/ exists r d, trim_end s = r ++ String d "" /\ is_js_space d = false.
Proof.
  induction s as [|c s IH]; [left; reflexivity|]. cbn [trim_end].
  destruct (String.eqb (trim_end s) "" && is_js_space c) eqn:E; [left; reflexivity|]. right.
  destruct IH as [IH|[r [d [H1 H2]]]].
  - rewrite IH in E |- *. cbn in E. exists "", c. split; [reflexivity | exact E].
  - exists (String c r), d. rewrite H1. split; [reflexivity | exact H2].
Qed.

Lemma trim_end_head c r : is_js_space c = false -> exists r', trim_end (String c r) = String c r'.
Proof. intros E. cbn [trim_end]. rewrite E, andb_false_r. eauto. Qed.

(** [uploadNftImage] leaves the config store as [loadConfig] leaves it.
    Without a session for the address it fails with the no-session error,
    and with one it refuses an endpoint made only of whitespace (or empty)
    with the not-configured error; in both cases it makes no request.
    Otherwise it makes one request, to the configured URL with its leading
    and trailing whitespace removed, and an HTTP failure is reported with
    the status and the body text. *)
Theorem uploadNftImage_endpoint (fetch : string -> UploadResponse)
  (fetched : option PartialConfig) (st : ConfigStore)
  (sessions : list Types.AccountSession) (address : string) :
  let config := fst (loadConfig fetched st) in
  let st' := snd (loadConfig fetched st) in
  let url := nftUploadUrl config in
  (Background.find_session address sessions = None ->
   uploadNftImage fetch fetched st sessions address = (st', [], inl Background.NO_SESSION_MSG)) /\
  (forall session, Background.find_session address sessions = Some session ->
   forallb is_js_space (list_ascii_of_string url) = true ->
   uploadNftImage fetch fetched st sessions address = (st', [], inl NOT_CONFIGURED_MSG)) /\
  (forall session, Background.find_session address sessions = Some session ->
   forallb is_js_space (list_ascii_of_string url) = false ->
   exists pre e post,
     url = pre ++ e ++ post /\
     forallb is_js_space (list_ascii_of_string pre) = true /\
     forallb is_js_space (list_ascii_of_string post) = true /\
     (exists c r, e = String c r /\ is_js_space c = false) /\
     (exists r d, e = r ++ String d "" /\ is_js_space d = false) /\
     fst (uploadNftImage fetch fetched st sessions address) = (st', [e]) /\
     (up_ok (fetch e) = false ->
      snd (uploadNftImage fetch fetched st sessions address) =
      inl ("Upload failed (HTTP " ++ Num.decimal (up_status (fetch e)) ++ "): "
           ++ up_text (fetch e)))).
Proof.
  unfold uploadNftImage. destruct (loadConfig fetched st) as [config st'].
  cbn [fst snd]. set (url := nftUploadUrl config).
  split; [intros Hs; rewrite Hs; reflexivity|].
  split.
  - intros session Hs H. rewrite Hs. unfold js_trim. fold url.
    rewrite (trim_start_all_space _ H). reflexivity.
  - intros session Hs H. rewrite Hs. fold url.
    destruct (trim_start_split url) as [pre [Hpre Hp]].
    destruct (trim_start_head url) as [E|[c [r [E Ec]]]].
    + exfalso. rewrite E, str_app_nil in Hpre. subst pre. congruence.
    + destruct (trim_end_head c r Ec) as [r' Er].
      destruct (trim_end_split (trim_start url)) as [post [Ht Hq]].
      exists pre, (js_trim url), post. unfold js_trim.
      split; [rewrite <- Ht; exact Hpre|]. split; [exact Hp|]. split; [exact Hq|].
      split; [rewrite E, Er; eauto|].
      split.
      { destruct (trim_end_last (trim_start url)) as [L|L]; [|exact L].
        rewrite E, Er in L. discriminate. }
      rewrite E, Er. cbn [String.eqb fst snd].
      split; [reflexivity|]. intros Hok. rewrite Hok. reflexivity.
Qed.

Lemma uploadNftImage_endpoint_witness :
  let fetch (_ : string) : UploadResponse :=
    {| up_ok := false; up_status := 500; up_content_type := None;
       up_text := "down"; up_json := None |} in
  let st := {| stored_config := Some {| p_twitchClientId := None; p_saltServiceUrl := None;
                 p_zkProverUrl := None; p_zkProverAuthToken := None;
                 p_backendRegistrationUrl := None; p_nftUploadUrl := Some " https://u " |};
               config_writes := 0 |} in
  Background.find_session "0xa" [Samples.sample_session] = Some Samples.sample_session /\
  (exists e, fst (uploadNftImage fetch None st [Samples.sample_session] "0xa") = (st, [e]) /\
             snd (uploadNftImage fetch None st [Samples.sample_session] "0xa") =
               inl "Upload failed (HTTP 500): down") /\
  uploadNftImage fetch None st [Samples.sample_session] "0xa" =
    (st, ["https://u"], inl "Upload failed (HTTP 500): down") /\
  uploadNftImage fetch None st [] "0xa" = (st, [], inl Background.NO_SESSION_MSG).
Proof.
  intros fetch st.
  destruct (uploadNftImage_endpoint fetch None st [Samples.sample_session] "0xa")
    as (_ & _ & H3).
  destruct (uploadNftImage_endpoint fetch None st [] "0xa") as (H1 & _ & _).
  assert (Hs : Background.find_session "0xa" [Samples.sample_session] = Some Samples.sample_session)
    by reflexivity.
  split; [exact Hs|]. split; [|split].
  - destruct (H3 _ Hs) as (pre & e & post & _ & _ & _ & _ & _ & Hreq & Hfail);
      [vm_compute; reflexivity|].
    exists e. split; [exact Hreq|]. rewrite (Hfail eq_refl). reflexivity.
  - vm_compute. reflexivity.
  - apply H1. reflexivity.
Defined.

Lemma nonempty_message (o : option string) :
  match o with Some m => if String.eqb m "" then None else Some m | None => None end <> Some "".
Proof.
  destruct o as [m|]; [|discriminate]. destruct (String.eqb m "") eqn:E; [discriminate|].
  intros H. injection H as ->. discriminate.
Qed.

(** The success reply of [uploadNftImage] always carries a [result] and
    never an empty [message]. A JSON body is the result; a string
    [message] field in it wins over [url], even when empty, in which case
    no message is given. Without a parsed JSON body the result is the body
    text, which is also the message when it is not empty. *)
Theorem upload_reply_spec (resp : UploadResponse) :
  let ct := match up_content_type resp with Some t => t | None => "" end in
  let d := upload_reply resp in
  ud_status d = "ok" /\ ud_message d <> Some "" /\
  (forall j, includes ct "application/json" = true -> up_json resp = Some j ->
     ud_result d = Some (RJson j) /\
     (forall m, get j "message" = Some (JStr m) ->
        ud_message d = if String.eqb m "" then None else Some m)) /\
  (includes ct "application/json" = false \/ up_json resp = None ->
     ud_result d = Some (RText (up_text resp)) /\
     ud_message d = if String.eqb (up_text resp) "" then None else Some (up_text resp)).
Proof.
  cbn zeta. unfold upload_reply. cbn zeta.
  destruct (includes _ "application/json") eqn:C; [destruct (up_json resp) as [j|] eqn:J|];
    cbn [fst snd ud_status ud_message ud_result];
    (split; [reflexivity|]); (split; [apply nonempty_message|]).
  - split.
    + intros j' _ Hj. injection Hj as <-. split; [reflexivity|].
      intros m Hm. destruct j; cbn [get] in Hm; try discriminate. cbn. rewrite Hm. reflexivity.
    + intros [H|H]; discriminate.
  - split; [intros j' _ Hj; discriminate|]. intros _. split; [reflexivity|].
    destruct (String.eqb (up_text resp) "") eqn:E; cbn; rewrite ?E; reflexivity.
  - split; [intros j' Hc; discriminate|]. intros _. split; [reflexivity|].
    destruct (String.eqb (up_text resp) "") eqn:E; cbn; rewrite ?E; reflexivity.
Qed.

End UploadExtra.
